(** * A shallow embedding of [datapane.view.xml_visitor]

    [XMLBuilder] walks a block tree, builds an lxml element tree and writes
    asset payloads into a [FileStore].  The Python visitor mutates its own
    [elements] accumulator, the asset blocks ([_prev_entry]), the file store
    and the global name generator; all of these live in one explicit state
    [St], threaded by a small state-and-exception monad [M].  Python
    exceptions do not roll back mutations, so an error carries the state it
    was raised in. *)

From Stdlib Require Import String List Ascii Bool Arith Lia.
From Stdlib Require HexString.
Import ListNotations.
Open Scope string_scope.
Open Scope list_scope.
Set Warnings "-register-all".

(** ** lxml element trees *)

(** An attribute mapping (a Python [dict] of strings), in insertion order. *)
Definition Attrs := list (string * string).

(** An lxml element: tag, attributes, optional CDATA text, child elements. *)
Inductive Elem : Type :=
| Node (tag : string) (attrs : Attrs) (text : option string) (children : list Elem).

Definition elem_tag (e : Elem) : string := let 'Node t _ _ _ := e in t.
Definition elem_attrs (e : Elem) : Attrs := let 'Node _ a _ _ := e in a.
Definition elem_text (e : Elem) : option string := let 'Node _ _ x _ := e in x.
Definition elem_children (e : Elem) : list Elem := let 'Node _ _ _ c := e in c.

(** Dict lookup [d.get(k)]. *)
Fixpoint dict_lookup (k : string) (d : Attrs) : option string :=
  match d with
  | [] => None
  | (k', v) :: d' => if String.eqb k k' then Some v else dict_lookup k d'
  end.

(** [d[k] = v]: an existing key keeps its position, a new key goes last.
    lxml's [Element.set] behaves the same way on attributes. *)
Fixpoint dict_set (d : Attrs) (k v : string) : Attrs :=
  match d with
  | [] => [(k, v)]
  | (k', v') :: d' =>
      if String.eqb k k' then (k, v) :: d' else (k', v') :: dict_set d' k v
  end.

(** [{**a, **b}]. *)
Definition dict_merge (a b : Attrs) : Attrs :=
  fold_left (fun d kv => dict_set d (fst kv) (snd kv)) b a.

Definition elem_set (e : Elem) (k v : string) : Elem :=
  let 'Node t a x c := e in Node t (dict_set a k v) x c.

(** ** Python exceptions raised on the paths of the visitor *)

Inductive Exc : Type :=
| DPClientError (msg : string)
| TypeError (msg : string)
| KeyError (key : string)
| ValueError (msg : string)
| DispatchError (msg : string)
| AssertionError.

(** Building the keyword arguments of a call [f(k1=v1, **m, k2=v2)]: a key
    given twice raises [TypeError].  [m] is a Python dict, so its own keys
    are distinct and only clashes with the keywords before it can occur. *)
Definition kw_add (kw : Attrs) (k v : string) : Exc + Attrs :=
  match dict_lookup k kw with
  | Some _ => inl (TypeError ("got multiple values for keyword argument '" ++ k ++ "'"))
  | None => inr (kw ++ [(k, v)])
  end.

Fixpoint kw_clash (kw m : Attrs) : option string :=
  match m with
  | [] => None
  | (k, _) :: m' =>
      match dict_lookup k kw with Some _ => Some k | None => kw_clash kw m' end
  end.

Definition kw_unpack (kw m : Attrs) : Exc + Attrs :=
  match kw_clash kw m with
  | Some k => inl (TypeError ("got multiple values for keyword argument '" ++ k ++ "'"))
  | None => inr (kw ++ m)
  end.

(** [etree.CDATA(s)]: lxml rejects strings that are not XML compatible
    (control characters other than tab, newline and carriage return) and
    strings containing the CDATA terminator. *)
Definition xml_char_ok (c : ascii) : bool :=
  let n := nat_of_ascii c in
  ((32 <=? n) || (n =? 9) || (n =? 10) || (n =? 13))%nat.

Fixpoint xml_compatible (s : string) : bool :=
  match s with
  | EmptyString => true
  | String c s' => xml_char_ok c && xml_compatible s'
  end.

Fixpoint has_cdata_end (s : string) : bool :=
  match s with
  | EmptyString => false
  | String c s' => String.prefix "]]>" s || has_cdata_end s'
  end.

Definition CDATA (s : string) : Exc + string :=
  if negb (xml_compatible s) then
    inl (ValueError "All strings must be XML compatible: Unicode or ASCII, no NULL bytes or control characters")
  else if has_cdata_end s then inl (ValueError "']]>' not allowed inside CDATA")
  else inr s.

(** lxml's check of an XML name, for element tags and attribute names
    ([_pyXmlNameIsValid]: libxml2's Name production, without ':').  Bytes
    from 128 up, which encode non-ASCII characters in UTF-8, are taken as
    name characters; names in Clark notation ("{ns}local") are not
    modelled. *)
Definition name_start_char (c : ascii) : bool :=
  let n := nat_of_ascii c in
  ((65 <=? n) && (n <=? 90) || (97 <=? n) && (n <=? 122) || (n =? 95) || (128 <=? n))%nat.

Definition name_char (c : ascii) : bool :=
  let n := nat_of_ascii c in
  (name_start_char c || (48 <=? n) && (n <=? 57) || (n =? 45) || (n =? 46))%nat.

Fixpoint name_chars (s : string) : bool :=
  match s with
  | EmptyString => true
  | String c s' => name_char c && name_chars s'
  end.

Definition xml_name_ok (s : string) : bool :=
  match s with
  | EmptyString => false
  | String c s' => name_start_char c && name_chars s'
  end.

(** Setting one attribute ([_setAttributeValue]): the name is checked,
    then the value, which must be XML compatible as for CDATA. *)
Definition set_attr_check (k v : string) : option Exc :=
  if negb (xml_name_ok k) then Some (ValueError ("Invalid attribute name '" ++ k ++ "'"))
  else if negb (xml_compatible v) then
    Some (ValueError "All strings must be XML compatible: Unicode or ASCII, no NULL bytes or control characters")
  else None.

Fixpoint attrs_check (a : Attrs) : option Exc :=
  match a with
  | [] => None
  | (k, v) :: a' =>
      match set_attr_check k v with
      | Some e => Some e
      | None => attrs_check a'
      end
  end.

(** [getattr(E, tag)(children..., attrib...)]: [getattr] gives
    [partial(E, tag)], so a "tag" keyword is given twice to
    [ElementMaker.__call__] (TypeError); then the element is made (its tag
    checked), the attributes set in order, the children (or the CDATA
    text) added. *)
Definition make_elem (tag : string) (attrib : Attrs) (text : option string)
    (children : list Elem) : Exc + Elem :=
  match dict_lookup "tag" attrib with
  | Some _ => inl (TypeError "__call__() got multiple values for argument 'tag'")
  | None =>
      if negb (xml_name_ok tag) then inl (ValueError ("Invalid tag name '" ++ tag ++ "'"))
      else match attrs_check attrib with
           | Some e => inl e
           | None => inr (Node tag attrib text children)
           end
  end.

(** [e.set(k, v)] on an element. *)
Definition etree_set (e : Elem) (k v : string) : Exc + Elem :=
  match set_attr_check k v with
  | Some err => inl err
  | None => inr (elem_set e k v)
  end.

(** Keyword attributes lxml accepts: no "tag" key, every name an XML name,
    every value XML compatible. *)
Definition kwargs_ok (a : Attrs) : bool :=
  match dict_lookup "tag" a, attrs_check a with
  | None, None => true
  | _, _ => false
  end.

(** lxml's serialisation ([etree.tostring]) of an element tree. *)
(** The exceptions lxml raises on a rejected tag, keyword or value. *)
Definition lxml_error (e : Exc) : Prop := exists m, e = TypeError m \/ e = ValueError m.

Definition dq : string := String (ascii_of_nat 34) EmptyString.

Fixpoint escape_attr (s : string) : string :=
  match s with
  | EmptyString => EmptyString
  | String c s' =>
      let r := escape_attr s' in
      if Ascii.eqb c "&" then "&amp;" ++ r
      else if Ascii.eqb c "<" then "&lt;" ++ r
      else if Ascii.eqb c ">" then "&gt;" ++ r
      else if Ascii.eqb c (ascii_of_nat 34) then "&quot;" ++ r
      else if Ascii.eqb c (ascii_of_nat 10) then "&#10;" ++ r
      else if Ascii.eqb c (ascii_of_nat 13) then "&#13;" ++ r
      else if Ascii.eqb c (ascii_of_nat 9) then "&#9;" ++ r
      else String c r
  end.

Fixpoint serialize_attrs (a : Attrs) : string :=
  match a with
  | [] => EmptyString
  | (k, v) :: a' => " " ++ k ++ "=" ++ dq ++ escape_attr v ++ dq ++ serialize_attrs a'
  end.

Definition serialize_text (x : option string) : string :=
  match x with
  | Some c => "<![CDATA[" ++ c ++ "]]>"
  | None => EmptyString
  end.

Fixpoint serialize (e : Elem) : string :=
  let 'Node t a x cs := e in
  match x, cs with
  | None, [] => "<" ++ t ++ serialize_attrs a ++ "/>"
  | _, _ =>
      "<" ++ t ++ serialize_attrs a ++ ">" ++ serialize_text x
        ++ String.concat EmptyString (map serialize cs) ++ "</" ++ t ++ ">"
  end.

(** ** The file store ([datapane.processors.FileStore]) *)

(** A [FileEntry]: its Python class, a handle, its content hash, mime type
    and extension. *)
Record FileEntry : Type := mkFileEntry {
  fe_klass : nat;
  fe_id : nat;
  fe_hash : string;
  fe_mime : string;
  fe_ext : string
}.

(** What the store has had written into it: bytes written into an entry's
    file by an asset writer, or a file imported by [load_file]. *)
Inductive WriteEv : Type :=
| Wrote (id : nat) (bytes : string)
| Imported (id : nat) (path : string).

Record Store : Type := mkStore {
  fw_klass : nat;
  files : list FileEntry;
  next_id : nat;
  writes : list WriteEv
}.

(** Modelled from the spec: [FileStore.get_file] (not in this source tree)
    allocates a fresh entry of the store's entry class [fw_klass]; its hash
    is a stable identifier of the entry. *)
Definition store_get_file (st : Store) (ext mime : string) : FileEntry * Store :=
  let n := next_id st in
  (mkFileEntry (fw_klass st) n (HexString.of_nat n) mime ext,
   mkStore (fw_klass st) (files st) (S n) (writes st)).

(** Modelled from the spec: [FileStore.add_file] registers an entry; adding
    an entry that is already registered is idempotent. *)
Definition store_add_file (st : Store) (fe : FileEntry) : Store :=
  if existsb (fun f => Nat.eqb (fe_id f) (fe_id fe)) (files st) then st
  else mkStore (fw_klass st) (files st ++ [fe]) (next_id st) (writes st).

(** The writer's bytes going into [fe.file]. *)
Definition store_write (st : Store) (fe : FileEntry) (bytes : string) : Store :=
  mkStore (fw_klass st) (files st) (next_id st) (writes st ++ [Wrote (fe_id fe) bytes]).

(** Modelled from the spec: [FileStore.load_file] imports an existing file as
    a fresh, registered entry of class [fw_klass]. *)
Definition store_load_file (st : Store) (path : string) : FileEntry * Store :=
  let n := next_id st in
  let fe := mkFileEntry (fw_klass st) n (HexString.of_nat n)
              "application/octet-stream" EmptyString in
  (fe, mkStore (fw_klass st) (files st ++ [fe]) (S n) (writes st ++ [Imported n path])).

(** ** Blocks *)

(** The asset block classes of [datapane.blocks.asset]. *)
Inductive AssetKind : Type :=
| KPlot | KTable | KDataTable | KAttachment | KMedia | KAssetBlock.

Definition kind_name (k : AssetKind) : string :=
  match k with
  | KPlot => "Plot" | KTable => "Table" | KDataTable => "DataTable"
  | KAttachment => "Attachment" | KMedia => "Media" | KAssetBlock => "AssetBlock"
  end.

(** An inline payload: its Python class name ([type(x).__name__]) and value. *)
Record Payload : Type := mkPayload { py_type : string; py_value : string }.

(** A mutable [AssetBlock] object. *)
Record AssetBlock : Type := mkAssetBlock {
  a_kind : AssetKind;
  a_tag : string;
  a_attributes : Attrs;
  a_file_attribs : Attrs;          (* b.get_file_attribs() *)
  a_data : option Payload;
  a_file : option string;
  a_caption : string;
  a_prev_entry : option FileEntry
}.

Definition set_prev_entry (b : AssetBlock) (fe : FileEntry) : AssetBlock :=
  mkAssetBlock (a_kind b) (a_tag b) (a_attributes b) (a_file_attribs b)
    (a_data b) (a_file b) (a_caption b) (Some fe).

Inductive TargetMode : Type := SELF | BELOW | SIDE | TOP.

(** A block tree.  Asset blocks are objects that the tree refers to by
    identity ([BAsset i] is the object at address [i]); the same asset
    object may occur several times in a tree.  [BInteractive] carries the
    XML form of its controls ([b.controls._to_xml()]). *)
Inductive Block : Type :=
| BElement (tag : string) (attrs : Attrs)
| BContainer (tag : string) (attrs : Attrs) (blocks : list Block)
| BText (tag : string) (attrs : Attrs) (content : string)
| BInteractive (controls : Elem) (target : TargetMode) (attrs : Attrs)
| BAsset (ref : nat).

Record View : Type := mkView { v_fragment : bool; v_blocks : list Block }.

(** ** Visitor state and monad *)

Definition Heap := nat -> AssetBlock.

Definition heap_upd (h : Heap) (i : nat) (b : AssetBlock) : Heap :=
  fun j => if Nat.eqb j i then b else h j.

(** [XMLBuilder.elements], [XMLBuilder.store], the asset objects and the
    counter behind [gen_name]. *)
Record St : Type := mkSt {
  elements : list Elem;
  store : Store;
  heap : Heap;
  name_ctr : nat
}.

Inductive Res (A : Type) : Type :=
| Ok (a : A) (s : St)
| Err (e : Exc) (s : St).
Arguments Ok {A} a s.
Arguments Err {A} e s.

Definition M (A : Type) : Type := St -> Res A.

Definition ret {A} (a : A) : M A := fun s => Ok a s.
Definition bind {A B} (m : M A) (k : A -> M B) : M B :=
  fun s => match m s with Ok a s' => k a s' | Err e s' => Err e s' end.
Definition raise {A} (e : Exc) : M A := fun s => Err e s.

Notation "x <- m ;; k" := (bind m (fun x => k)) (at level 61, m at next level, right associativity).
Notation "m ;; k" := (bind m (fun _ => k)) (at level 61, right associativity).

Definition get : M St := fun s => Ok s s.
Definition modify (f : St -> St) : M unit := fun s => Ok tt (f s).

(** Raise the error of a pure Python computation. *)
Definition lift {A} (r : Exc + A) : M A :=
  match r with inl e => raise e | inr a => ret a end.

(** [try: m except DispatchError: h]. *)
Definition catch_dispatch {A} (m : M A) (h : M A) : M A :=
  fun s => match m s with
           | Err (DispatchError _) s' => h s'
           | r => r
           end.

Definition set_elements (l : list Elem) : M unit :=
  modify (fun s => mkSt l (store s) (heap s) (name_ctr s)).
Definition get_elements : M (list Elem) := s <- get ;; ret (elements s).
Definition set_store (st : Store) : M unit :=
  modify (fun s => mkSt (elements s) st (heap s) (name_ctr s)).
Definition get_store : M Store := s <- get ;; ret (store s).
Definition get_block (i : nat) : M AssetBlock := s <- get ;; ret (heap s i).
Definition set_block (i : nat) (b : AssetBlock) : M unit :=
  modify (fun s => mkSt (elements s) (store s) (heap_upd (heap s) i b) (name_ctr s)).

(** [XMLBuilder.add_element]: append to the current accumulator. *)
Definition add_element (e : Elem) : M unit :=
  l <- get_elements ;; set_elements (l ++ [e]).

(** Modelled from the spec: [datapane.blocks.interactive.gen_name] (not in
    this source tree) returns a name that is unique across the document. *)
Definition gen_name : M string :=
  s <- get ;;
  modify (fun s => mkSt (elements s) (store s) (heap s) (S (name_ctr s))) ;;
  ret (String.append "id-" (HexString.of_nat (name_ctr s))).

(** Modelled from the spec: [datapane.common.viewxml_utils.mk_attribs]
    (not in this source tree) renders a boolean as "true" / "false". *)
Definition conv_bool (b : bool) : string := if b then "true" else "false".
Definition mk_attribs_view (fragment : bool) : Attrs :=
  [("version", "1"); ("fragment", conv_bool fragment)].

(** ** Asset writers *)

Record AssetMeta : Type := mkAssetMeta { ext : string; mime : string }.

(** The writer classes of [datapane.view.asset_writers]. *)
Inductive WriterCls : Type :=
| PlotWriter | HTMLTableWriter | DataTableWriter | AttachmentWriter.

(** An [AssetWriterP]: [get_meta] and [write_file] are multimethods over the
    payload's type; [None] is a payload type with no registered method,
    which raises [DispatchError]. *)
Record AssetWriter : Type := mkAssetWriter {
  get_meta : Payload -> option AssetMeta;
  write_file : Payload -> option string
}.

(** [asset_mapping], as [get_writer] populates it. *)
Definition asset_mapping (k : AssetKind) : option WriterCls :=
  match k with
  | KPlot => Some PlotWriter
  | KTable => Some HTMLTableWriter
  | KDataTable => Some DataTableWriter
  | KAttachment => Some AttachmentWriter
  | KMedia | KAssetBlock => None
  end.

Section Visitor.

(** The behaviour of each writer class, whose code is outside this file. *)
Variable writer_impl : WriterCls -> AssetWriter.

(** [get_writer(b)]: [asset_mapping[type(b)]()]; a miss is a dict lookup
    failure, [KeyError]. *)
Definition get_writer (b : AssetBlock) : M AssetWriter :=
  match asset_mapping (a_kind b) with
  | Some w => ret (writer_impl w)
  | None => raise (KeyError (kind_name (a_kind b)))
  end.

Definition call_get_meta (w : AssetWriter) (x : Payload) : M AssetMeta :=
  match get_meta w x with
  | Some m => ret m
  | None => raise (DispatchError (py_type x))
  end.

Definition call_write_file (w : AssetWriter) (x : Payload) (fe : FileEntry) : M unit :=
  match write_file w x with
  | Some bytes => st <- get_store ;; set_store (store_write st fe bytes)
  | None => raise (DispatchError (py_type x))
  end.

Definition get_file (e m : string) : M FileEntry :=
  st <- get_store ;; let '(fe, st') := store_get_file st e m in set_store st' ;; ret fe.

Definition add_file (fe : FileEntry) : M unit :=
  st <- get_store ;; set_store (store_add_file st fe).

Definition load_file (path : string) : M FileEntry :=
  st <- get_store ;; let '(fe, st') := store_load_file st path in set_store st' ;; ret fe.

(** The branches of [XMLBuilder._add_asset_to_store] after the memo check:
    write the inline data through its writer, import the file, or fail. *)
Definition store_payload (b : AssetBlock) : M FileEntry :=
  match a_data b with
  | Some d =>
      catch_dispatch
        (writer <- get_writer b ;;
         meta <- call_get_meta writer d ;;
         fe <- get_file (ext meta) (mime meta) ;;
         call_write_file writer d fe ;;
         add_file fe ;;
         ret fe)
        (raise (DPClientError (py_type d ++ " not supported for XMLBuilder")))
  | None =>
      match a_file b with
      | Some f => load_file f
      | None => raise (DPClientError "No asset to add")
      end
  end.

(** [XMLBuilder._add_asset_to_store] on the asset object at address [i]. *)
Definition add_asset_to_store (i : nat) : M FileEntry :=
  b <- get_block i ;;
  st <- get_store ;;
  let rest :=
    fe <- store_payload b ;;
    b' <- get_block i ;;
    set_block i (set_prev_entry b' fe) ;;
    ret fe in
  match a_prev_entry b with
  | Some pe =>
      if Nat.eqb (fe_klass pe) (fw_klass st) then add_file pe ;; ret pe else rest
  | None => rest
  end.

(** [XMLBuilder.visit] for an [AssetBlock]. *)
Definition visit_asset (i : nat) : M unit :=
  fe <- add_asset_to_store i ;;
  b <- get_block i ;;
  kw <- lift (kw_unpack [("type", fe_mime fe)]
                (dict_merge (a_attributes b) (a_file_attribs b))) ;;
  kw' <- lift (kw_add kw "src" ("ref://" ++ fe_hash fe)) ;;
  e <- lift (make_elem (a_tag b) kw' None []) ;;
  e' <- (if String.eqb (a_caption b) EmptyString then ret e
         else lift (etree_set e "caption" (a_caption b))) ;;
  add_element e'.

(** [XMLBuilder.visit] for an [Interactive] block. *)
Definition visit_interactive (c_e : Elem) (target : TargetMode) (attrs : Attrs) : M unit :=
  match target with
  | SELF =>
      name <- gen_name ;;
      e <- lift (make_elem "Interactive" (dict_set (dict_set attrs "target" name) "name" name)
                  None [c_e]) ;;
      add_element e
  | BELOW | SIDE =>
      let cols := match target with BELOW => "1" | _ => "2" end in
      name <- gen_name ;;
      i_e <- lift (make_elem "Interactive" (dict_set attrs "target" name) None [c_e]) ;;
      empty <- lift (make_elem "Empty" [("name", name)] None []) ;;
      g1 <- lift (make_elem "Group" [("columns", "1")] None [empty]) ;;
      e <- lift (make_elem "Group" [("columns", cols)] None [i_e; g1]) ;;
      add_element e
  | TOP =>
      e <- lift (make_elem "Interactive" attrs None [c_e]) ;;
      add_element e
  end.

(** [ContainerBlock.traverse]: visit each child in order. *)
Fixpoint traverse (f : Block -> M unit) (bs : list Block) : M unit :=
  match bs with
  | [] => ret tt
  | b :: bs' => f b ;; traverse f bs'
  end.

(** [XMLBuilder.visit], dispatched on the block's class. *)
Fixpoint visit (b : Block) : M unit :=
  match b with
  | BElement tag attrs =>
      e <- lift (make_elem tag attrs None []) ;;
      add_element e
  | BContainer tag attrs bs =>
      cur_elemnts <- get_elements ;;
      set_elements [] ;;
      traverse visit bs ;;
      els <- get_elements ;;
      element <- lift (make_elem tag attrs None els) ;;
      set_elements cur_elemnts ;;
      add_element element
  | BText tag attrs content =>
      c <- lift (CDATA content) ;;
      e <- lift (make_elem tag attrs (Some c) []) ;;
      add_element e
  | BInteractive c_e target attrs => visit_interactive c_e target attrs
  | BAsset i => visit_asset i
  end.

(** [XMLBuilder.visit] for the root [View]. *)
Definition visit_view (v : View) : M unit :=
  els0 <- get_elements ;;
  if Nat.eqb (length els0) 0 then
    traverse visit (v_blocks v) ;;
    els <- get_elements ;;
    view_doc <- lift (make_elem "View" (mk_attribs_view (v_fragment v)) None els) ;;
    set_elements [view_doc]
  else raise AssertionError.

End Visitor.

(** ** Shapes, for comparing block trees with element trees *)

Inductive Shape : Type := SNode (cs : list Shape).

Fixpoint bshape (b : Block) : Shape :=
  match b with
  | BContainer _ _ bs => SNode (map bshape bs)
  | _ => SNode []
  end.

Fixpoint eshape (e : Elem) : Shape :=
  let 'Node _ _ _ cs := e in SNode (map eshape cs).

Fixpoint no_interactive (b : Block) : bool :=
  match b with
  | BContainer _ _ bs => forallb no_interactive bs
  | BInteractive _ _ _ => false
  | _ => true
  end.

(** The state a run ends in, whether it returned or raised. *)
Definition res_state {A} (r : Res A) : St :=
  match r with Ok _ s => s | Err _ s => s end.

(** Two snapshots of one asset object that differ at most in
    [_prev_entry], which only moves when there is data or a file. *)
Definition same_fields (b b' : AssetBlock) : Prop :=
  a_kind b' = a_kind b /\ a_tag b' = a_tag b /\ a_attributes b' = a_attributes b /\
  a_file_attribs b' = a_file_attribs b /\ a_data b' = a_data b /\
  a_file b' = a_file b /\ a_caption b' = a_caption b.

Definition heap_step (b b' : AssetBlock) : Prop :=
  same_fields b b' /\
  (a_prev_entry b' = a_prev_entry b \/ a_data b <> None \/ a_file b <> None).

Definition frame {A} (m : M A) : Prop :=
  forall s j, heap_step (heap s j) (heap (res_state (m s)) j).

(** Asset objects whose memoised entry came from a traversal: a block holds
    a [_prev_entry] only if it has data or a file. *)
Definition heap_wf (h : Heap) : Prop :=
  forall j, a_prev_entry (h j) <> None -> a_data (h j) <> None \/ a_file (h j) <> None.


(** ** Concrete inputs *)

(** Writers whose multimethods know one payload type, "Figure". *)
Definition example_writers (w : WriterCls) : AssetWriter :=
  mkAssetWriter
    (fun p => if String.eqb (py_type p) "Figure"
              then Some (mkAssetMeta ".vl.json" "application/vnd.vegalite.v5+json") else None)
    (fun p => if String.eqb (py_type p) "Figure" then Some (py_value p) else None).

Definition example_plot : AssetBlock :=
  mkAssetBlock KPlot "Plot" [("name", "plot1")] [] (Some (mkPayload "Figure" "{}"))
    None "A plot" None.

Definition empty_asset : AssetBlock :=
  mkAssetBlock KMedia "Media" [] [] None None EmptyString None.

Definition unregistered_asset : AssetBlock :=
  mkAssetBlock KAssetBlock "Asset" [] [] (Some (mkPayload "DataFrame" "a,b"))
    None EmptyString None.

(** A plot whose declared attributes already hold a src key. *)
Definition clashing_plot : AssetBlock :=
  mkAssetBlock KPlot "Plot" [("src", "x")] [] (Some (mkPayload "Figure" "{}"))
    None EmptyString None.

Definition example_state (h : Heap) : St := mkSt [] (mkStore 1 [] 0 []) h 0.

Definition example_controls : Elem := Node "Controls" [] None [].

(** The entry the store hands out first for [example_plot]. *)
Definition plot_entry : FileEntry :=
  mkFileEntry 1 0 "0x0" "application/vnd.vegalite.v5+json" ".vl.json".

(** A Group holding one Interactive block placed BELOW. *)
Definition group_with_interactive : Block :=
  BContainer "Group" [] [BInteractive example_controls BELOW []].

(** A visit that returns normally, having appended exactly [e] to the
    accumulator and drawn one fresh name from [gen_name]. *)
Definition emits_named (wi : WriterCls -> AssetWriter) (b : Block) (s : St) (e : Elem) : Prop :=
  exists s', visit wi b s = Ok tt s' /\ elements s' = elements s ++ [e] /\
             name_ctr s' = S (name_ctr s).

(** The name [gen_name] hands out in state [s]. *)
Definition fresh_name (s : St) : string := String.append "id-" (HexString.of_nat (name_ctr s)).

(** The View of the spec's example: not a fragment, one Group holding the
    Text "hi". *)
Definition example_view : View :=
  mkView false [BContainer "Group" [] [BText "Text" [] "hi"]].

Definition example_xml : string :=
  ("<View version=" ++ dq ++ "1" ++ dq ++ " fragment=" ++ dq ++ "false" ++ dq
    ++ "><Group><Text><![CDATA[hi]]></Text></Group></View>")%string.

(** The parts of the state a computation leaves alone. *)
Definition keeps {X A} (f : St -> X) (m : M A) : Prop :=
  forall s, f (res_state (m s)) = f s.

(** ** Induction over block trees *)

Section BlockInd.
Variable P : Block -> Prop.
Hypothesis HE : forall t a, P (BElement t a).
Hypothesis HC : forall t a bs, Forall P bs -> P (BContainer t a bs).
Hypothesis HT : forall t a c, P (BText t a c).
Hypothesis HI : forall c m a, P (BInteractive c m a).
Hypothesis HA : forall i, P (BAsset i).

Fixpoint block_ind' (b : Block) : P b :=
  match b with
  | BElement t a => HE t a
  | BContainer t a bs =>
      HC t a bs
        ((fix go (l : list Block) : Forall P l :=
            match l with
            | [] => Forall_nil P
            | x :: l' => Forall_cons x (block_ind' x) (go l')
            end) bs)
  | BText t a c => HT t a c
  | BInteractive c m a => HI c m a
  | BAsset i => HA i
  end.
End BlockInd.

(** The asset objects a block tree refers to. *)
Fixpoint asset_refs (b : Block) : list nat :=
  match b with
  | BContainer _ _ bs => flat_map asset_refs bs
  | BAsset i => [i]
  | _ => []
  end.

(** How many times a visit of the tree calls [gen_name]. *)
Fixpoint count_named (b : Block) : nat :=
  match b with
  | BContainer _ _ bs => list_sum (map count_named bs)
  | BInteractive _ TOP _ => 0
  | BInteractive _ _ _ => 1
  | _ => 0
  end.

(** The asset object [i] holds a memoised entry of the store's class, so
    [_add_asset_to_store] takes its shortcut. *)
Definition memo_ok (s : St) (i : nat) : Prop :=
  exists fe, a_prev_entry (heap s i) = Some fe /\ fe_klass fe = fw_klass (store s).

(** The keyword arguments [_E(type=fe.mime, **union, src=...)] of the node
    [XMLBuilder.visit] builds for the asset object [b] and its entry [fe]. *)
Definition asset_kw (fe : FileEntry) (b : AssetBlock) : Exc + Attrs :=
  match kw_unpack [("type", fe_mime fe)] (dict_merge (a_attributes b) (a_file_attribs b)) with
  | inl e => inl e
  | inr kw => kw_add kw "src" ("ref://" ++ fe_hash fe)
  end.

Definition fwk (s : St) : nat := fw_klass (store s).
Definition nwrites (s : St) : list WriteEv := writes (store s).
Definition nid (s : St) : nat := next_id (store s).

(** The handle of the entry a store event is about. *)
Definition ev_id (ev : WriteEv) : nat := match ev with Wrote n _ => n | Imported n _ => n end.

(** Asset object [i] holds the memo entry [fe], of the store's class. *)
Definition memo_at (s : St) (i : nat) (fe : FileEntry) : Prop :=
  a_prev_entry (heap s i) = Some fe /\ fe_klass fe = fwk s.

(** Pairing the blocks of a tree with the nodes emitted for them. *)
Fixpoint zip_flat {X} (f : Block -> Elem -> list X) (bs : list Block) (es : list Elem) : list X :=
  match bs, es with
  | b :: bs', e :: es' => f b e ++ zip_flat f bs' es'
  | _, _ => []
  end.

(** For each Asset block of a tree, in order, its asset object and the src
    attribute of the node emitted for it. *)
Fixpoint asset_srcs (b : Block) (e : Elem) : list (nat * option string) :=
  match b with
  | BContainer _ _ bs => zip_flat asset_srcs bs (elem_children e)
  | BAsset i => [(i, dict_lookup "src" (elem_attrs e))]
  | _ => []
  end.

(** How a run may change the store's class, its entry counter and the
    asset objects: the class stays, the counter only grows, and an asset
    object is either untouched or keeps all its fields but [_prev_entry],
    which then holds an entry of the store's class allocated during the
    run. *)
Definition prev_step (s s' : St) : Prop :=
  fwk s' = fwk s /\ nid s <= nid s' /\
  forall j, heap s' j = heap s j \/
    (same_fields (heap s j) (heap s' j) /\
     exists fe, a_prev_entry (heap s' j) = Some fe /\ fe_klass fe = fwk s /\
                nid s <= fe_id fe < nid s').

(** The store events of a run from [s] to [s']: one per entry allocated
    during the run, in allocation order. *)
Definition events_from (s s' : St) : Prop :=
  nid s <= nid s' /\
  exists l, nwrites s' = nwrites s ++ l /\ map ev_id l = seq (nid s) (nid s' - nid s).

(** A computation that, from any state and whatever its outcome, changes the
    asset objects as [prev_step] allows and touches none outside [P]. *)
Definition step_frame {A} (P : nat -> Prop) (m : M A) : Prop :=
  forall s, prev_step s (res_state (m s)) /\
            forall j, ~ P j -> heap (res_state (m s)) j = heap s j.

(** A returning visit appends one node. *)
Definition one_node (wi : WriterCls -> AssetWriter) (b : Block) : Prop :=
  forall s s', visit wi b s = Ok tt s' ->
  exists e, elements s' = elements s ++ [e] /\
            (eshape e = bshape b <-> no_interactive b = true) /\
            map fst (asset_srcs b e) = asset_refs b.

(** * Lemmas *)

Lemma dict_lookup_set_eq d k v : dict_lookup k (dict_set d k v) = Some v.
Proof.
  induction d as [|[k' v'] d IH]; cbn.
  - now rewrite String.eqb_refl.
  - destruct (String.eqb k k') eqn:E; cbn.
    + now rewrite String.eqb_refl.
    + now rewrite E.
Qed.

Lemma dict_lookup_set_ne d k k' v :
  k <> k' -> dict_lookup k' (dict_set d k v) = dict_lookup k' d.
Proof.
  intros Hne. induction d as [|[k2 v2] d IH]; cbn.
  - destruct (String.eqb_spec k' k); congruence.
  - destruct (String.eqb_spec k k2) as [->|Hk]; cbn.
    + destruct (String.eqb_spec k' k2); congruence.
    + destruct (String.eqb k' k2); auto.
Qed.

Lemma dict_lookup_set d k v k' :
  dict_lookup k' (dict_set d k v) = if String.eqb k' k then Some v else dict_lookup k' d.
Proof.
  destruct (String.eqb_spec k' k) as [->|Hne].
  - apply dict_lookup_set_eq.
  - apply dict_lookup_set_ne; congruence.
Qed.

Lemma dict_lookup_none_notin k d : dict_lookup k d = None <-> ~ In k (map fst d).
Proof.
  induction d as [|[k' v'] d IH]; cbn; [tauto|].
  destruct (String.eqb_spec k k') as [->|Hne].
  - split; [discriminate|tauto].
  - rewrite IH. intuition congruence.
Qed.

(** [{**a, **b}] for a dict [b] (distinct keys): the right operand wins. *)
Lemma dict_lookup_merge a b k :
  NoDup (map fst b) ->
  dict_lookup k (dict_merge a b) =
  match dict_lookup k b with Some v => Some v | None => dict_lookup k a end.
Proof.
  unfold dict_merge. revert a.
  induction b as [|[k' v'] b IH]; intros a Hnd; cbn; [reflexivity|].
  inversion Hnd as [|? ? Hnotin Hnd']; subst.
  rewrite (IH _ Hnd'), dict_lookup_set.
  destruct (String.eqb_spec k k') as [->|Hne].
  - rewrite (proj2 (dict_lookup_none_notin k' b) Hnotin). reflexivity.
  - destruct (dict_lookup k b); reflexivity.
Qed.

Lemma dict_lookup_app k d1 d2 :
  dict_lookup k (d1 ++ d2) =
  match dict_lookup k d1 with Some v => Some v | None => dict_lookup k d2 end.
Proof.
  induction d1 as [|[k' v'] d1 IH]; cbn; [reflexivity|].
  destruct (String.eqb k k'); auto.
Qed.

Lemma string_app_assoc (a b c : string) : ((a ++ b) ++ c = a ++ b ++ c)%string.
Proof. induction a as [|x a IH]; cbn; congruence. Qed.

Lemma kw_clash_single k0 v0 m :
  kw_clash [(k0, v0)] m = None <-> dict_lookup k0 m = None.
Proof.
  induction m as [|[k v] m IH]; cbn; [tauto|].
  destruct (String.eqb_spec k k0) as [->|Hne].
  - rewrite String.eqb_refl. split; discriminate.
  - destruct (String.eqb_spec k0 k); [congruence|]. exact IH.
Qed.

(** ** lxml's element construction *)

Lemma set_attr_check_err k v e : set_attr_check k v = Some e -> lxml_error e.
Proof.
  unfold set_attr_check. destruct (negb (xml_name_ok k)).
  - intros H; injection H as <-. eexists; right; reflexivity.
  - destruct (negb (xml_compatible v)); [|discriminate].
    intros H; injection H as <-. eexists; right; reflexivity.
Qed.

Lemma attrs_check_err a e : attrs_check a = Some e -> lxml_error e.
Proof.
  induction a as [|[k v] a IH]; cbn; [discriminate|].
  destruct (set_attr_check k v) eqn:E; [intros H; injection H as <-|exact IH].
  exact (set_attr_check_err _ _ _ E).
Qed.

Lemma make_elem_ok tag a x c :
  xml_name_ok tag = true -> kwargs_ok a = true -> make_elem tag a x c = inr (Node tag a x c).
Proof.
  intros Ht Ha. unfold kwargs_ok in Ha. unfold make_elem. rewrite Ht. cbn.
  destruct (dict_lookup "tag" a); [discriminate|].
  destruct (attrs_check a); [discriminate|reflexivity].
Qed.

Lemma make_elem_inr tag a x c e :
  make_elem tag a x c = inr e ->
  e = Node tag a x c /\ xml_name_ok tag = true /\ kwargs_ok a = true.
Proof.
  unfold make_elem, kwargs_ok. destruct (dict_lookup "tag" a); [discriminate|].
  destruct (xml_name_ok tag); cbn; [|discriminate].
  destruct (attrs_check a); [discriminate|]. intros H; injection H as <-. auto.
Qed.

Lemma make_elem_err tag a x c :
  xml_name_ok tag && kwargs_ok a = false ->
  exists e, make_elem tag a x c = inl e /\ lxml_error e.
Proof.
  intros H. destruct (make_elem tag a x c) as [e|e] eqn:E.
  - exists e. split; [reflexivity|]. revert E. unfold make_elem.
    destruct (dict_lookup "tag" a).
    + intros E; injection E as <-. eexists; left; reflexivity.
    + destruct (negb (xml_name_ok tag)).
      * intros E; injection E as <-. eexists; right; reflexivity.
      * destruct (attrs_check a) eqn:Ea; [|discriminate].
        intros E; injection E as <-. exact (attrs_check_err _ _ Ea).
  - destruct (make_elem_inr _ _ _ _ _ E) as [_ [H1 H2]]. rewrite H1, H2 in H. discriminate.
Qed.

Lemma make_elem_cases tag a x c :
  (xml_name_ok tag && kwargs_ok a = true /\ make_elem tag a x c = inr (Node tag a x c)) \/
  (xml_name_ok tag && kwargs_ok a = false /\ exists e, make_elem tag a x c = inl e /\ lxml_error e).
Proof.
  destruct (xml_name_ok tag && kwargs_ok a) eqn:E.
  - left. apply andb_true_iff in E as [E1 E2]. split; [reflexivity|]. now apply make_elem_ok.
  - right. split; [reflexivity|]. now apply make_elem_err.
Qed.

Lemma etree_set_ok e k v :
  xml_name_ok k = true -> xml_compatible v = true -> etree_set e k v = inr (elem_set e k v).
Proof. intros Hk Hv. unfold etree_set, set_attr_check. rewrite Hk, Hv. reflexivity. Qed.

Lemma etree_set_inr e k v e' : etree_set e k v = inr e' -> e' = elem_set e k v.
Proof. unfold etree_set. destruct (set_attr_check k v); [discriminate|congruence]. Qed.

Lemma attrs_check_set a k v :
  attrs_check a = None -> set_attr_check k v = None -> attrs_check (dict_set a k v) = None.
Proof.
  intros Ha Hkv. induction a as [|[k' v'] a IH]; cbn in *.
  - rewrite Hkv. reflexivity.
  - destruct (set_attr_check k' v') eqn:E; [discriminate|].
    destruct (String.eqb k k'); cbn; [rewrite Hkv; exact Ha|rewrite E; exact (IH Ha)].
Qed.

Lemma kwargs_ok_set a k v :
  kwargs_ok a = true -> k <> "tag" -> xml_name_ok k = true -> xml_compatible v = true ->
  kwargs_ok (dict_set a k v) = true.
Proof.
  unfold kwargs_ok. intros Ha Hk Hn Hv.
  rewrite dict_lookup_set_ne by congruence.
  destruct (dict_lookup "tag" a); [discriminate|].
  destruct (attrs_check a) eqn:E; [discriminate|].
  rewrite attrs_check_set; [reflexivity|exact E|].
  unfold set_attr_check. rewrite Hn, Hv. reflexivity.
Qed.

Lemma of_pos_compat (p : BinNums.positive) (rest : string) :
  xml_compatible rest = true -> xml_compatible (HexString.Raw.of_pos p rest) = true.
Proof.
  revert p rest. fix IH 1. intros p rest Hr.
  do 4 try destruct p as [p|p|]; cbn; rewrite ?Hr; try reflexivity;
    apply IH; cbn; exact Hr.
Qed.

(** The names [gen_name] hands out are XML compatible. *)
Lemma fresh_name_compat s : xml_compatible (fresh_name s) = true.
Proof.
  unfold fresh_name, HexString.of_nat, HexString.of_N.
  destruct (name_ctr s) as [|n]; [reflexivity|].
  cbn. apply of_pos_compat. reflexivity.
Qed.

(** ** The visit of each kind of block, as an equation *)

Lemma kwargs_ok_name s : kwargs_ok [("name", fresh_name s)] = true.
Proof.
  apply (kwargs_ok_set [] "name" (fresh_name s)); [reflexivity|discriminate|reflexivity|].
  apply fresh_name_compat.
Qed.

Lemma visit_interactive_eq wi c_e m attrs s :
  let name := fresh_name s in
  let s1 := mkSt (elements s) (store s) (heap s) (S (name_ctr s)) in
  visit wi (BInteractive c_e m attrs) s =
  match m with
  | SELF =>
      match make_elem "Interactive" (dict_set (dict_set attrs "target" name) "name" name)
              None [c_e] with
      | inl e => Err e s1
      | inr e => Ok tt (mkSt (elements s ++ [e]) (store s) (heap s) (S (name_ctr s)))
      end
  | BELOW | SIDE =>
      match make_elem "Interactive" (dict_set attrs "target" name) None [c_e] with
      | inl e => Err e s1
      | inr i_e =>
          Ok tt (mkSt (elements s ++
                       [Node "Group" [("columns", match m with BELOW => "1" | _ => "2" end)] None
                          [i_e; Node "Group" [("columns", "1")] None
                                  [Node "Empty" [("name", name)] None []]]])
                      (store s) (heap s) (S (name_ctr s)))
      end
  | TOP =>
      match make_elem "Interactive" attrs None [c_e] with
      | inl e => Err e s
      | inr e => Ok tt (mkSt (elements s ++ [e]) (store s) (heap s) (name_ctr s))
      end
  end.
Proof.
  intros name s1.
  cbn [visit]. unfold visit_interactive.
  destruct m;
    cbv beta iota zeta delta [bind lift gen_name get modify ret add_element get_elements
                              set_elements];
    cbn [elements store heap name_ctr];
    change (String.append "id-" (HexString.of_nat (name_ctr s))) with name;
    try (destruct (make_elem _ _ _ _); reflexivity);
    (destruct (make_elem "Interactive" (dict_set attrs "target" name) None [c_e]); [reflexivity|]);
    rewrite (make_elem_ok "Empty" _ _ _ eq_refl (kwargs_ok_name s));
    rewrite make_elem_ok by reflexivity;
    rewrite make_elem_ok by reflexivity; reflexivity.
Qed.

(** C1 (amended): the Interactive desugaring, for the attributes lxml
    accepts.  SELF: one Interactive node with the control content and the
    block's attributes plus target=name, name=name for a freshly generated
    name.  BELOW / SIDE: a Group with columns "1" / "2" holding an
    Interactive node (control content, attributes plus target=name) and a
    columns="1" Group holding one Empty node named name.  The other mode
    (TOP): an Interactive node with the block's own attributes.  Accepted
    block attributes stay accepted once target and name are added; when the
    attributes the node is built with are rejected (a "tag" key, a key that
    is no XML name, a value with control characters), the visit raises
    TypeError or ValueError and appends nothing. *)
Theorem interactive_desugar (wi : WriterCls -> AssetWriter) (c_e : Elem) (attrs : Attrs) (s : St) :
  let name := fresh_name s in
  let a_self := dict_set (dict_set attrs "target" name) "name" name in
  let a_below := dict_set attrs "target" name in
  (kwargs_ok attrs = true -> kwargs_ok a_self = true /\ kwargs_ok a_below = true) /\
  (kwargs_ok a_self = true ->
     emits_named wi (BInteractive c_e SELF attrs) s (Node "Interactive" a_self None [c_e])) /\
  (dict_lookup "target" a_self = Some name /\ dict_lookup "name" a_self = Some name /\
   forall k, k <> "target" -> k <> "name" -> dict_lookup k a_self = dict_lookup k attrs) /\
  Forall (fun '(mode, cols) =>
     kwargs_ok a_below = true ->
     emits_named wi (BInteractive c_e mode attrs) s
       (Node "Group" [("columns", cols)] None
          [Node "Interactive" a_below None [c_e];
           Node "Group" [("columns", "1")] None [Node "Empty" [("name", name)] None []]]))
    [(BELOW, "1"); (SIDE, "2")] /\
  (dict_lookup "target" a_below = Some name /\
   forall k, k <> "target" -> dict_lookup k a_below = dict_lookup k attrs) /\
  (kwargs_ok attrs = true ->
     exists s', visit wi (BInteractive c_e TOP attrs) s = Ok tt s' /\
                elements s' = elements s ++ [Node "Interactive" attrs None [c_e]]) /\
  (forall mode,
     kwargs_ok (match mode with SELF => a_self | BELOW | SIDE => a_below | TOP => attrs end) = false ->
     exists e s', visit wi (BInteractive c_e mode attrs) s = Err e s' /\
                  elements s' = elements s /\ lxml_error e).
Proof.
  intros name a_self a_below.
  assert (Hn : xml_compatible name = true) by apply fresh_name_compat.
  split; [|split; [|split; [|split; [|split; [|split]]]]].
  - intros Ha. unfold a_self, a_below.
    assert (H1 : kwargs_ok (dict_set attrs "target" name) = true)
      by (apply kwargs_ok_set; auto; discriminate).
    split; [|exact H1]. apply kwargs_ok_set; auto; discriminate.
  - intros Ha. unfold emits_named. rewrite visit_interactive_eq.
    fold name. fold a_self. rewrite make_elem_ok by auto.
    eexists. split; [reflexivity|split; reflexivity].
  - split; [|split].
    + unfold a_self. rewrite dict_lookup_set_ne by discriminate. apply dict_lookup_set_eq.
    + apply dict_lookup_set_eq.
    + intros k H1 H2. unfold a_self. rewrite !dict_lookup_set_ne by congruence. reflexivity.
  - repeat constructor; intros Ha; unfold emits_named; rewrite visit_interactive_eq;
      fold name; fold a_below; rewrite make_elem_ok by auto;
      eexists; (split; [reflexivity|split; reflexivity]).
  - split; [apply dict_lookup_set_eq|].
    intros k Hk. unfold a_below. rewrite dict_lookup_set_ne by congruence. reflexivity.
  - intros Ha. rewrite visit_interactive_eq. rewrite make_elem_ok by auto.
    eexists; split; reflexivity.
  - intros mode Hk.
    destruct (make_elem_err "Interactive"
                (match mode with SELF => a_self | BELOW | SIDE => a_below | TOP => attrs end)
                None [c_e]) as [e [He Hl]]; [rewrite Hk; apply andb_false_r|].
    rewrite visit_interactive_eq. fold name. fold a_self. fold a_below.
    destruct mode; rewrite He; eexists _, _; (split; [reflexivity|split; [reflexivity|exact Hl]]).
Qed.

Lemma visit_element_eq wi tag attrs s :
  visit wi (BElement tag attrs) s =
  match make_elem tag attrs None [] with
  | inl e => Err e s
  | inr e => Ok tt (mkSt (elements s ++ [e]) (store s) (heap s) (name_ctr s))
  end.
Proof.
  cbn [visit]. unfold bind, lift, add_element, get_elements, set_elements, get, modify, ret.
  destruct (make_elem tag attrs None []); reflexivity.
Qed.

Lemma visit_text_eq wi tag attrs c s :
  visit wi (BText tag attrs c) s =
  match CDATA c with
  | inl e => Err e s
  | inr c' =>
      match make_elem tag attrs (Some c') [] with
      | inl e => Err e s
      | inr e => Ok tt (mkSt (elements s ++ [e]) (store s) (heap s) (name_ctr s))
      end
  end.
Proof.
  cbn [visit]. unfold bind, lift, add_element, get_elements, set_elements, get, modify, ret.
  destruct (CDATA c); [reflexivity|]. destruct (make_elem _ _ _ _); reflexivity.
Qed.

(** C8 (amended): a Text block whose content lxml accepts as CDATA (XML
    compatible, no "]]>") and whose tag and attributes lxml accepts yields a
    node whose CDATA payload is the literal content, serialised raw between
    <![CDATA[ and ]]>: reserved characters such as < and & are never
    entity-escaped.  Content with control characters or "]]>" makes
    etree.CDATA raise ValueError, whatever the tag and attributes; a
    rejected tag or attribute makes the node construction raise TypeError
    or ValueError; in both cases nothing is appended. *)
Theorem text_cdata_raw (wi : WriterCls -> AssetWriter) (tag : string) (attrs : Attrs)
    (c : string) (s : St) :
  (xml_compatible c = true -> has_cdata_end c = false ->
   xml_name_ok tag = true -> kwargs_ok attrs = true ->
   exists s', visit wi (BText tag attrs c) s = Ok tt s' /\
     elements s' = elements s ++ [Node tag attrs (Some c) []] /\
     serialize (Node tag attrs (Some c) []) =
       ("<" ++ tag ++ serialize_attrs attrs ++ ">" ++ "<![CDATA[" ++ c ++ "]]>"
         ++ "</" ++ tag ++ ">")%string) /\
  (xml_compatible c = false \/ has_cdata_end c = true ->
   exists msg, visit wi (BText tag attrs c) s = Err (ValueError msg) s) /\
  (xml_compatible c = true -> has_cdata_end c = false ->
   xml_name_ok tag && kwargs_ok attrs = false ->
   exists e, visit wi (BText tag attrs c) s = Err e s /\ lxml_error e).
Proof.
  rewrite visit_text_eq. unfold CDATA. split; [|split].
  - intros Hx Hc Ht Ha. rewrite Hx, Hc. cbn. rewrite make_elem_ok by assumption.
    eexists. split; [reflexivity|split; [reflexivity|]].
    cbn. rewrite !string_app_assoc. reflexivity.
  - intros [Hx|Hc].
    + rewrite Hx. eexists; reflexivity.
    + destruct (xml_compatible c); cbn; rewrite ?Hc; eexists; reflexivity.
  - intros Hx Hc Hk. rewrite Hx, Hc. cbn.
    destruct (make_elem_err tag attrs (Some c) [] Hk) as [e [-> Hl]]. eauto.
Qed.

(** C7: visiting a View from an empty accumulator leaves exactly one
    document, a "View" node with version="1" and fragment "true"/"false",
    wrapping the nodes of its content; the spec's minimal example
    serialises to
    <View version="1" fragment="false"><Group><Text><![CDATA[hi]]></Text></Group></View>. *)
Theorem view_document (wi : WriterCls -> AssetWriter) (v : View) (s : St) :
  elements s = [] ->
  (visit_view wi v s =
     match traverse (visit wi) (v_blocks v) s with
     | Ok _ s1 =>
         Ok tt (mkSt [Node "View" [("version", "1");
                                    ("fragment", if v_fragment v then "true" else "false")]
                        None (elements s1)]
                     (store s1) (heap s1) (name_ctr s1))
     | Err e s1 => Err e s1
     end) /\
  exists s', visit_view wi example_view s = Ok tt s' /\
             map serialize (elements s') = [example_xml].
Proof.
  intros He. split.
  - destruct s as [els st h n]; cbn in He; subst els.
    unfold visit_view, bind, get_elements, get, ret. cbn.
    destruct (traverse (visit wi) (v_blocks v) _); [|reflexivity].
    unfold mk_attribs_view, conv_bool. destruct (v_fragment v); reflexivity.
  - destruct s as [els st h n]; cbn in He; subst els.
    eexists. split; [reflexivity|]. reflexivity.
Qed.

(** ** Which parts of the state a computation leaves alone *)

Lemma keeps_ret {X A} (f : St -> X) (a : A) : keeps f (ret a).
Proof. intros s; reflexivity. Qed.

Lemma keeps_raise {X A} (f : St -> X) e : keeps f (@raise A e).
Proof. intros s; reflexivity. Qed.

Lemma keeps_bind {X A B} (f : St -> X) (m : M A) (k : A -> M B) :
  keeps f m -> (forall a, keeps f (k a)) -> keeps f (bind m k).
Proof.
  intros Hm Hk s. unfold bind. specialize (Hm s).
  destruct (m s) as [a s1|e s1]; cbn in *; [rewrite Hk|]; exact Hm.
Qed.

Lemma keeps_catch {X A} (f : St -> X) (m h : M A) :
  keeps f m -> keeps f h -> keeps f (catch_dispatch m h).
Proof.
  intros Hm Hh s. unfold catch_dispatch. specialize (Hm s).
  destruct (m s) as [a s1|[] s1]; cbn in *; try rewrite Hh; exact Hm.
Qed.

Ltac keeps_tac :=
  unfold get_store, set_store, get_block, set_block, get_file, add_file, load_file,
    call_get_meta, call_write_file, get_writer, add_element, get_elements,
    set_elements, lift, gen_name, get, modify;
  repeat match goal with
  | |- keeps _ (bind _ _) => apply keeps_bind; [|intro]
  | |- keeps _ (ret _) => apply keeps_ret
  | |- keeps _ (raise _) => apply keeps_raise
  | |- keeps _ (catch_dispatch _ _) => apply keeps_catch
  | |- keeps _ (match ?x with _ => _ end) => destruct x
  | |- keeps _ _ => intros ?s; reflexivity
  end.

Lemma store_payload_keeps wi b :
  keeps heap (store_payload wi b) /\ keeps elements (store_payload wi b) /\
  keeps name_ctr (store_payload wi b).
Proof. unfold store_payload. split; [|split]; keeps_tac. Qed.

Lemma add_asset_keeps wi i :
  keeps elements (add_asset_to_store wi i) /\ keeps name_ctr (add_asset_to_store wi i).
Proof.
  unfold add_asset_to_store.
  split; keeps_tac; try apply store_payload_keeps;
    destruct (Nat.eqb _ _); keeps_tac; apply store_payload_keeps.
Qed.

Lemma store_payload_ok wi b s fe s1 :
  store_payload wi b s = Ok fe s1 ->
  (a_data b <> None \/ a_file b <> None) /\ fe_klass fe = fw_klass (store s) /\
  fw_klass (store s1) = fw_klass (store s) /\
  length (writes (store s1)) = S (length (writes (store s))).
Proof.
  unfold store_payload. destruct (a_data b) as [d|] eqn:Ed.
  - unfold catch_dispatch, get_writer, call_get_meta, call_write_file, get_file,
      add_file, get_store, set_store, get, modify, bind, raise, ret.
    destruct (asset_mapping (a_kind b)); cbn; [|intros H; discriminate H].
    destruct (get_meta (wi w) d); cbn; [|intros H; discriminate H].
    unfold call_write_file. destruct (write_file (wi w) d); cbn; [|intros H; discriminate H].
    unfold store_add_file, store_write; cbn.
    match goal with |- context [if ?c then _ else _] => destruct c end;
      cbn; intros H; inversion H; subst; cbn;
      rewrite ?length_app; cbn; repeat split; try lia; left; congruence.
  - destruct (a_file b) as [f|]; cbn; [|intros H; discriminate H].
    intros H; inversion H; subst; cbn. rewrite length_app; cbn.
    repeat split; try lia. right; congruence.
Qed.

(** How [_add_asset_to_store] changes the asset objects: through the memo
    check nothing; otherwise, on success, only [_prev_entry] of the block,
    which then has data or a file. *)
Lemma add_asset_heap wi i s :
  match add_asset_to_store wi i s with
  | Ok fe s1 =>
      a_prev_entry (heap s1 i) = Some fe /\
      (heap s1 = heap s \/
       (heap s1 = heap_upd (heap s) i (set_prev_entry (heap s i) fe) /\
        (a_data (heap s i) <> None \/ a_file (heap s i) <> None)))
  | Err _ s1 => heap s1 = heap s
  end.
Proof.
  unfold add_asset_to_store, bind, get_block, get_store, get, ret.
  assert (Hrest : match (fe <- store_payload wi (heap s i) ;;
                         b' <- get_block i ;;
                         set_block i (set_prev_entry b' fe) ;; ret fe) s with
                  | Ok fe s1 =>
                      a_prev_entry (heap s1 i) = Some fe /\
                      (heap s1 = heap s \/
                       (heap s1 = heap_upd (heap s) i (set_prev_entry (heap s i) fe) /\
                        (a_data (heap s i) <> None \/ a_file (heap s i) <> None)))
                  | Err _ s1 => heap s1 = heap s
                  end).
  { unfold bind, get_block, set_block, get, modify, ret.
    pose proof (proj1 (store_payload_keeps wi (heap s i)) s) as Hk.
    destruct (store_payload wi (heap s i) s) as [fe s1|e s1] eqn:E; cbn in *; [|exact Hk].
    destruct (store_payload_ok _ _ _ _ _ E) as [Hdf _].
    unfold heap_upd. rewrite Nat.eqb_refl. split; [reflexivity|].
    right. split; [rewrite Hk; reflexivity|exact Hdf]. }
  cbn.
  destruct (a_prev_entry (heap s i)) as [pe|] eqn:Ep; [|exact Hrest].
  destruct (Nat.eqb (fe_klass pe) (fw_klass (store s))); [|exact Hrest].
  cbn. split; [exact Ep|left; reflexivity].
Qed.

(** ** The frame of a traversal on the asset objects *)

Lemma heap_step_refl b : heap_step b b.
Proof. repeat split; auto. Qed.

Lemma heap_step_trans b1 b2 b3 : heap_step b1 b2 -> heap_step b2 b3 -> heap_step b1 b3.
Proof.
  intros [[? [? [? [? [Hd [Hf ?]]]]]] H12] [[? [? [? [? [Hd' [Hf' ?]]]]]] H23].
  split; [repeat split; congruence|].
  destruct H12 as [H12|H12]; destruct H23 as [H23|H23]; rewrite ?Hd, ?Hf in *; auto.
  left; congruence.
Qed.

Lemma keeps_frame {A} (m : M A) : keeps heap m -> frame m.
Proof. intros Hk s j. rewrite Hk. apply heap_step_refl. Qed.

Lemma frame_bind {A B} (m : M A) (k : A -> M B) :
  frame m -> (forall a, frame (k a)) -> frame (bind m k).
Proof.
  intros Hm Hk s j. unfold bind. specialize (Hm s j).
  destruct (m s) as [a s1|e s1]; cbn in *; [|exact Hm].
  eapply heap_step_trans; [exact Hm|apply Hk].
Qed.

Lemma add_asset_frame wi i : frame (add_asset_to_store wi i).
Proof.
  intros s j. pose proof (add_asset_heap wi i s) as H.
  destruct (add_asset_to_store wi i s) as [fe s1|e s1]; cbn.
  - destruct H as [_ [->|[-> Hdf]]]; [apply heap_step_refl|].
    unfold heap_upd. destruct (Nat.eqb_spec j i) as [->|]; [|apply heap_step_refl].
    split; [repeat split|right; exact Hdf].
  - rewrite H. apply heap_step_refl.
Qed.

Lemma traverse_frame (f : Block -> M unit) bs :
  Forall (fun b => frame (f b)) bs -> frame (traverse f bs).
Proof.
  induction 1; cbn.
  - apply keeps_frame, keeps_ret.
  - apply frame_bind; auto.
Qed.

Lemma visit_frame wi b : frame (visit wi b).
Proof.
  induction b using block_ind'; cbn.
  - apply keeps_frame. keeps_tac.
  - apply frame_bind; [apply keeps_frame; keeps_tac|intros].
    apply frame_bind; [apply keeps_frame; keeps_tac|intros].
    apply frame_bind; [apply traverse_frame; exact H|intros].
    apply keeps_frame; keeps_tac.
  - apply keeps_frame. keeps_tac.
  - apply keeps_frame. unfold visit_interactive. destruct m; keeps_tac.
  - unfold visit_asset. apply frame_bind; [apply add_asset_frame|intros].
    apply keeps_frame. keeps_tac.
Qed.

Lemma visit_view_frame wi v : frame (visit_view wi v).
Proof.
  unfold visit_view. apply frame_bind; [apply keeps_frame; keeps_tac|intros a].
  destruct (Nat.eqb _ _); [|apply keeps_frame, keeps_raise].
  apply frame_bind; [|intros; apply keeps_frame; keeps_tac].
  apply traverse_frame. apply Forall_forall. intros; apply visit_frame.
Qed.

Lemma frame_heap_wf {A} (m : M A) s :
  frame m -> heap_wf (heap s) -> heap_wf (heap (res_state (m s))).
Proof.
  intros Hf Hwf j Hp.
  destruct (Hf s j) as [[_ [_ [_ [_ [Hd [Hfi _]]]]]] Hpr].
  rewrite Hd, Hfi.
  destruct Hpr as [Hpr|Hpr]; [apply Hwf; congruence|exact Hpr].
Qed.

(** C4: in any reachable state (an asset object holds a memoised entry only
    if it has data or a file, which every traversal preserves), visiting an
    Asset block with neither inline data nor a file reference raises
    DPClientError "No asset to add", before anything is appended. *)
Theorem no_asset_to_add (wi : WriterCls -> AssetWriter) (i : nat) (s : St) :
  heap_wf (heap s) -> a_data (heap s i) = None -> a_file (heap s i) = None ->
  visit wi (BAsset i) s = Err (DPClientError "No asset to add") s /\
  (forall b s0, heap_wf (heap s0) -> heap_wf (heap (res_state (visit wi b s0)))).
Proof.
  intros Hwf Hd Hf. split.
  - assert (Hp : a_prev_entry (heap s i) = None).
    { destruct (a_prev_entry (heap s i)) eqn:E; [|reflexivity].
      destruct (Hwf i) as [H|H]; congruence. }
    change (visit wi (BAsset i) s) with (visit_asset wi i s).
    cbv beta iota delta [visit_asset add_asset_to_store bind get_block get_store get ret].
    rewrite Hp. unfold store_payload. rewrite Hd, Hf. reflexivity.
  - intros b s0. apply frame_heap_wf, visit_frame.
Qed.

(** ** The Asset visit, step by step *)

Lemma visit_asset_eq wi i s :
  visit wi (BAsset i) s =
  match add_asset_to_store wi i s with
  | Ok fe s1 =>
      let b := heap s1 i in
      match kw_unpack [("type", fe_mime fe)] (dict_merge (a_attributes b) (a_file_attribs b)) with
      | inl e => Err e s1
      | inr kw =>
          match kw_add kw "src" ("ref://" ++ fe_hash fe)%string with
          | inl e => Err e s1
          | inr kw' =>
              match make_elem (a_tag b) kw' None [] with
              | inl e => Err e s1
              | inr e =>
                  match (if String.eqb (a_caption b) EmptyString then inr e
                         else etree_set e "caption" (a_caption b)) with
                  | inl err => Err err s1
                  | inr e' => Ok tt (mkSt (elements s1 ++ [e']) (store s1) (heap s1) (name_ctr s1))
                  end
              end
          end
      end
  | Err e s1 => Err e s1
  end.
Proof.
  change (visit wi (BAsset i) s) with (visit_asset wi i s).
  unfold visit_asset, bind.
  destruct (add_asset_to_store wi i s) as [fe s1|e s1]; [|reflexivity].
  cbn. destruct (kw_unpack _ _) as [e|kw]; [reflexivity|].
  cbn. destruct (kw_add _ _ _) as [e|kw']; [reflexivity|].
  cbn. destruct (make_elem _ _ _ _) as [e|el]; [reflexivity|].
  cbn. destruct (String.eqb _ _); [reflexivity|].
  cbn. destruct (etree_set _ _ _); reflexivity.
Qed.

Lemma visit_asset_ok wi i s s' :
  visit wi (BAsset i) s = Ok tt s' ->
  exists fe s1, add_asset_to_store wi i s = Ok fe s1 /\
    let b := heap s1 i in
    let U := dict_merge (a_attributes b) (a_file_attribs b) in
    dict_lookup "type" U = None /\ dict_lookup "src" U = None /\
    s' = mkSt (elements s ++
                 [let e := Node (a_tag b)
                             ([("type", fe_mime fe)] ++ U ++ [("src", ("ref://" ++ fe_hash fe)%string)])
                             None [] in
                  if String.eqb (a_caption b) EmptyString then e
                  else elem_set e "caption" (a_caption b)])
              (store s1) (heap s1) (name_ctr s1).
Proof.
  rewrite visit_asset_eq.
  pose proof (proj1 (add_asset_keeps wi i) s) as Hel.
  destruct (add_asset_to_store wi i s) as [fe s1|e s1]; [|discriminate].
  cbn in Hel. intros H. exists fe, s1. split; [reflexivity|]. cbn zeta in *.
  set (U := dict_merge (a_attributes (heap s1 i)) (a_file_attribs (heap s1 i))) in *.
  unfold kw_unpack in H. destruct (kw_clash [("type", fe_mime fe)] U) eqn:Ec; [discriminate|].
  apply kw_clash_single in Ec.
  unfold kw_add in H. rewrite dict_lookup_app in H. cbn [dict_lookup String.eqb Ascii.eqb Bool.eqb] in H.
  destruct (dict_lookup "src" U) eqn:Es; [discriminate|].
  destruct (make_elem _ _ _ _) as [e|el] eqn:Em; [discriminate|].
  apply make_elem_inr in Em as [-> _].
  destruct (String.eqb (a_caption (heap s1 i)) EmptyString).
  - injection H as <-. rewrite Hel. repeat split; auto.
  - destruct (etree_set _ _ _) as [e|e'] eqn:Ee; [discriminate|].
    apply etree_set_inr in Ee as ->. injection H as <-. rewrite Hel. repeat split; auto.
Qed.

Lemma lookup_src_type fe U :
  dict_lookup "src" U = None ->
  dict_lookup "type" ([("type", fe_mime fe)] ++ U ++ [("src", ("ref://" ++ fe_hash fe)%string)]) =
    Some (fe_mime fe) /\
  dict_lookup "src" ([("type", fe_mime fe)] ++ U ++ [("src", ("ref://" ++ fe_hash fe)%string)]) =
    Some ("ref://" ++ fe_hash fe)%string /\
  forall k, k <> "type" -> k <> "src" ->
    dict_lookup k ([("type", fe_mime fe)] ++ U ++ [("src", ("ref://" ++ fe_hash fe)%string)]) =
    dict_lookup k U.
Proof.
  intros Hs. split; [reflexivity|split].
  - cbn [app dict_lookup String.eqb Ascii.eqb Bool.eqb].
    rewrite dict_lookup_app, Hs. reflexivity.
  - intros k Ht Hsrc. cbn [app dict_lookup].
    destruct (String.eqb_spec k "type"); [congruence|].
    rewrite dict_lookup_app.
    destruct (dict_lookup k U); [reflexivity|]. cbn.
    destruct (String.eqb_spec k "src"); congruence.
Qed.

Lemma add_asset_same_fields wi i s fe s1 :
  add_asset_to_store wi i s = Ok fe s1 -> same_fields (heap s i) (heap s1 i).
Proof.
  intros H. pose proof (add_asset_frame wi i s i) as Hf. rewrite H in Hf. apply Hf.
Qed.

(** C5: the node emitted for an Asset block whose extraction returned [fe]
    has the block's tag, type = fe's mime type, src = "ref://" ++ fe's hash,
    every other key as in the union of the declared attributes with the
    file-specific ones (file-specific value winning), and, when the block
    has a (non-empty) caption, caption equal to it whatever the union holds. *)
Theorem asset_node (wi : WriterCls -> AssetWriter) (i : nat) (s s' : St) :
  visit wi (BAsset i) s = Ok tt s' ->
  NoDup (map fst (a_file_attribs (heap s i))) ->
  exists fe s1 e,
    add_asset_to_store wi i s = Ok fe s1 /\ elements s' = elements s ++ [e] /\
    elem_tag e = a_tag (heap s i) /\
    dict_lookup "type" (elem_attrs e) = Some (fe_mime fe) /\
    dict_lookup "src" (elem_attrs e) = Some ("ref://" ++ fe_hash fe)%string /\
    (forall k, k <> "type" -> k <> "src" -> k <> "caption" ->
       dict_lookup k (elem_attrs e) =
       match dict_lookup k (a_file_attribs (heap s i)) with
       | Some v => Some v
       | None => dict_lookup k (a_attributes (heap s i))
       end) /\
    (a_caption (heap s i) <> EmptyString ->
       dict_lookup "caption" (elem_attrs e) = Some (a_caption (heap s i))) /\
    (a_caption (heap s i) = EmptyString ->
       dict_lookup "caption" (elem_attrs e) =
       match dict_lookup "caption" (a_file_attribs (heap s i)) with
       | Some v => Some v
       | None => dict_lookup "caption" (a_attributes (heap s i))
       end).
Proof.
  intros Hv Hnd.
  destruct (visit_asset_ok _ _ _ _ Hv) as [fe [s1 [Ha [Ht [Hs ->]]]]].
  pose proof (add_asset_same_fields _ _ _ _ _ Ha) as [Hk [Htag [Hat [Hfa [_ [_ Hcap]]]]]].
  cbn zeta in *. rewrite Hat, Hfa in Ht, Hs.
  set (U := dict_merge (a_attributes (heap s i)) (a_file_attribs (heap s i))) in *.
  pose proof (lookup_src_type fe U Hs) as [Ltype [Lsrc Lother]].
  eexists fe, s1, _. split; [exact Ha|]. split; [reflexivity|].
  rewrite Hat, Hfa, Htag, Hcap. fold U.
  destruct (String.eqb_spec (a_caption (heap s i)) EmptyString) as [Hc|Hc]; cbn [elem_tag elem_attrs elem_set].
  - split; [reflexivity|]. split; [exact Ltype|]. split; [exact Lsrc|].
    split; [|split; [intros Hne; congruence|]].
    + intros k H1 H2 H3. rewrite Lother by assumption. unfold U.
      now apply dict_lookup_merge.
    + intros _. rewrite Lother by discriminate. unfold U.
      now apply dict_lookup_merge.
  - split; [reflexivity|].
    rewrite !(dict_lookup_set _ "caption"). cbn [String.eqb Ascii.eqb Bool.eqb].
    split; [exact Ltype|]. split; [exact Lsrc|].
    split; [|split; [intros _; try rewrite String.eqb_refl; reflexivity|intros; congruence]].
    intros k H1 H2 H3. rewrite dict_lookup_set, (proj2 (String.eqb_neq k "caption") H3).
    rewrite Lother by assumption. unfold U. now apply dict_lookup_merge.
Qed.

(** C10: once the extraction of an Asset block has returned, its node can
    only be built when the union of the declared and the file-specific
    attributes has neither a "type" nor a "src" key: a visit that returns
    implies both are absent, and with either key the call
    [_E(type=..., **union, src=...)] raises TypeError (keyword given twice)
    before any node is made. *)
Theorem asset_kw_clash (wi : WriterCls -> AssetWriter) (i : nat) (s : St)
    (fe : FileEntry) (s1 : St) :
  add_asset_to_store wi i s = Ok fe s1 ->
  let U := dict_merge (a_attributes (heap s i)) (a_file_attribs (heap s i)) in
  ((exists s', visit wi (BAsset i) s = Ok tt s') ->
     dict_lookup "type" U = None /\ dict_lookup "src" U = None) /\
  ((dict_lookup "type" U <> None \/ dict_lookup "src" U <> None) ->
     exists msg, visit wi (BAsset i) s = Err (TypeError msg) s1).
Proof.
  intros Ha U.
  pose proof (add_asset_same_fields _ _ _ _ _ Ha) as [_ [_ [Hat [Hfa _]]]].
  split.
  - intros [s' Hv]. destruct (visit_asset_ok _ _ _ _ Hv) as [fe' [s1' [Ha' [Ht [Hs _]]]]].
    rewrite Ha in Ha'. injection Ha' as <- <-. cbn zeta in Ht, Hs.
    rewrite Hat, Hfa in Ht, Hs. split; assumption.
  - rewrite visit_asset_eq, Ha. cbn zeta. rewrite Hat, Hfa. fold U.
    unfold kw_unpack, kw_add. intros Hc.
    destruct (kw_clash [("type", fe_mime fe)] U) eqn:Ec; [eexists; reflexivity|].
    apply kw_clash_single in Ec.
    rewrite dict_lookup_app. cbn [dict_lookup String.eqb Ascii.eqb Bool.eqb].
    destruct (dict_lookup "src" U) eqn:Es; [eexists; reflexivity|].
    destruct Hc; contradiction.
Qed.

(** ** Containers and the shape of the output *)

Lemma container_eq wi tag attrs bs s :
  visit wi (BContainer tag attrs bs) s =
  match traverse (visit wi) bs (mkSt [] (store s) (heap s) (name_ctr s)) with
  | Ok _ s1 =>
      match make_elem tag attrs None (elements s1) with
      | inl e => Err e s1
      | inr el => Ok tt (mkSt (elements s ++ [el]) (store s1) (heap s1) (name_ctr s1))
      end
  | Err e s1 => Err e s1
  end.
Proof.
  cbn [visit]. unfold bind, get_elements, set_elements, get, modify, ret, lift, add_element.
  cbn. destruct (traverse (visit wi) bs _) as [[] s1|e s1]; [|reflexivity].
  destruct (make_elem _ _ _ _); reflexivity.
Qed.

Lemma container_ok wi tag attrs bs s s' :
  visit wi (BContainer tag attrs bs) s = Ok tt s' ->
  exists s1, traverse (visit wi) bs (mkSt [] (store s) (heap s) (name_ctr s)) = Ok tt s1 /\
    s' = mkSt (elements s ++ [Node tag attrs None (elements s1)]) (store s1) (heap s1) (name_ctr s1).
Proof.
  rewrite container_eq.
  destruct (traverse (visit wi) bs _) as [[] s1|e s1]; [|discriminate].
  destruct (make_elem _ _ _ _) as [e|el] eqn:Em; [discriminate|].
  apply make_elem_inr in Em as [-> _]. intros H; injection H as <-. eauto.
Qed.

Lemma visit_interactive_ok wi c m a s s' :
  visit wi (BInteractive c m a) s = Ok tt s' ->
  exists e, s' = mkSt (elements s ++ [e]) (store s) (heap s)
                      (name_ctr s + count_named (BInteractive c m a)) /\
            eshape e <> SNode [].
Proof.
  rewrite visit_interactive_eq.
  destruct m; cbn [count_named]; rewrite ?Nat.add_0_r, ?Nat.add_1_r;
    (destruct (make_elem _ _ _ _) as [e|el] eqn:Em; [discriminate|]);
    intros H; injection H as <-; try (apply make_elem_inr in Em as [-> _]);
    (eexists; split; [reflexivity|cbn; discriminate]).
Qed.

Lemma visit_element_ok wi tag attrs s s' :
  visit wi (BElement tag attrs) s = Ok tt s' ->
  s' = mkSt (elements s ++ [Node tag attrs None []]) (store s) (heap s) (name_ctr s).
Proof.
  rewrite visit_element_eq. destruct (make_elem _ _ _ _) as [e|el] eqn:Em; [discriminate|].
  apply make_elem_inr in Em as [-> _]. intros H; injection H as <-. reflexivity.
Qed.

Lemma visit_text_ok wi tag attrs c s s' :
  visit wi (BText tag attrs c) s = Ok tt s' ->
  s' = mkSt (elements s ++ [Node tag attrs (Some c) []]) (store s) (heap s) (name_ctr s).
Proof.
  rewrite visit_text_eq. unfold CDATA.
  destruct (negb (xml_compatible c)); [discriminate|].
  destruct (has_cdata_end c); [discriminate|].
  destruct (make_elem _ _ _ _) as [e|el] eqn:Em; [discriminate|].
  apply make_elem_inr in Em as [-> _]. intros H; injection H as <-. reflexivity.
Qed.

Lemma asset_elem_shape tag kw cap :
  eshape (if String.eqb cap EmptyString then Node tag kw None []
          else elem_set (Node tag kw None []) "caption" cap) = SNode [].
Proof. destruct (String.eqb cap EmptyString); reflexivity. Qed.

Lemma traverse_nodes wi bs :
  Forall (one_node wi) bs ->
  forall s s', traverse (visit wi) bs s = Ok tt s' ->
  exists es, elements s' = elements s ++ es /\ length es = length bs /\
    (map eshape es = map bshape bs <-> forallb no_interactive bs = true) /\
    map fst (zip_flat asset_srcs bs es) = flat_map asset_refs bs.
Proof.
  induction 1 as [|b bs Hb Hbs IH]; intros s s' Ht; cbn in Ht.
  - inversion Ht; subst. exists []. rewrite app_nil_r. cbn. intuition.
  - unfold bind in Ht. destruct (visit wi b s) as [[] s1|e s1] eqn:E; [|discriminate].
    destruct (Hb _ _ E) as [e [He [Hsh Hsr]]].
    destruct (IH _ _ Ht) as [es [Hes [Hlen [Hm Hsrs]]]].
    exists (e :: es). split; [rewrite Hes, He, <- app_assoc; reflexivity|].
    split; [cbn; congruence|]. split.
    + cbn. rewrite andb_true_iff, <- Hsh, <- Hm. split.
      * intros H; injection H as H1 H2; auto.
      * intros [H1 H2]; congruence.
    + cbn. rewrite map_app, Hsr, Hsrs. reflexivity.
Qed.

Lemma visit_one_node wi b : one_node wi b.
Proof.
  induction b as [t a|t a bs IH|t a c|c m a|i] using block_ind'; intros s s' Hv.
  - apply visit_element_ok in Hv as ->. eexists; split; [reflexivity|]. cbn; intuition.
  - destruct (container_ok _ _ _ _ _ _ Hv) as [s1 [Et ->]].
    eexists; split; [reflexivity|].
    destruct (traverse_nodes wi bs IH _ _ Et) as [es [Hes [_ [Hm Hsr]]]].
    cbn in Hes. rewrite Hes. cbn. split; [|exact Hsr].
    rewrite <- Hm. split; [intros H; injection H as H; exact H|congruence].
  - apply visit_text_ok in Hv as ->. eexists; split; [reflexivity|]. cbn; intuition.
  - destruct (visit_interactive_ok _ _ _ _ _ _ Hv) as [e [-> Hsh]].
    eexists; split; [reflexivity|]. cbn. split; [split; [contradiction|discriminate]|reflexivity].
  - destruct (visit_asset_ok _ _ _ _ Hv) as [fe [s1 [_ [_ [_ ->]]]]].
    eexists; split; [reflexivity|]. rewrite asset_elem_shape. cbn; intuition.
Qed.

(** C6 (amended): visiting a Container saves the caller's accumulator,
    visits the children from an empty one, then builds the container's node
    with exactly the children's nodes in order (one node per child),
    restores the caller's accumulator and appends the node to it.  When lxml
    rejects the container's tag or attributes, the construction raises
    TypeError or ValueError and the caller's accumulator is not restored.
    Every block visit that returns appends exactly one node, whose shape is
    the block's exactly when the tree holds no Interactive block: an
    Interactive block is desugared (control content as a child, and for
    BELOW / SIDE an enclosing Group), so its node never mirrors it. *)
Theorem container_mirror (wi : WriterCls -> AssetWriter) (tag : string) (attrs : Attrs)
    (bs : list Block) (s : St) :
  (visit wi (BContainer tag attrs bs) s =
   match traverse (visit wi) bs (mkSt [] (store s) (heap s) (name_ctr s)) with
   | Ok _ s1 =>
       match make_elem tag attrs None (elements s1) with
       | inl e => Err e s1
       | inr el => Ok tt (mkSt (elements s ++ [el]) (store s1) (heap s1) (name_ctr s1))
       end
   | Err e s1 => Err e s1
   end) /\
  (forall els, xml_name_ok tag && kwargs_ok attrs = true ->
     make_elem tag attrs None els = inr (Node tag attrs None els)) /\
  (forall els, xml_name_ok tag && kwargs_ok attrs = false ->
     exists e, make_elem tag attrs None els = inl e /\ lxml_error e) /\
  (forall s1, traverse (visit wi) bs (mkSt [] (store s) (heap s) (name_ctr s)) = Ok tt s1 ->
     length (elements s1) = length bs) /\
  (forall b s0 s0', visit wi b s0 = Ok tt s0' ->
     exists e, elements s0' = elements s0 ++ [e] /\
               (eshape e = bshape b <-> no_interactive b = true)).
Proof.
  split; [apply container_eq|split; [|split; [|split]]].
  - intros els H. apply andb_true_iff in H as [H1 H2]. now apply make_elem_ok.
  - intros els H. now apply make_elem_err.
  - intros s1 Ht.
    assert (Hall : Forall (one_node wi) bs)
      by (apply Forall_forall; intros; apply visit_one_node).
    destruct (traverse_nodes wi bs Hall _ _ Ht) as [es [Hes [Hlen _]]].
    cbn in Hes. rewrite Hes. exact Hlen.
  - intros b s0 s0' Hv. destruct (visit_one_node wi b s0 s0' Hv) as [e [He [Hsh _]]]. eauto.
Qed.

(** ** Memoised asset entries *)

Lemma add_asset_memo wi i s pe :
  a_prev_entry (heap s i) = Some pe -> fe_klass pe = fw_klass (store s) ->
  add_asset_to_store wi i s =
  Ok pe (mkSt (elements s) (store_add_file (store s) pe) (heap s) (name_ctr s)).
Proof.
  intros Hp Hk.
  cbv beta iota delta [add_asset_to_store bind get_block get_store get ret].
  rewrite Hp, Hk, Nat.eqb_refl. reflexivity.
Qed.

Lemma store_add_file_writes st fe :
  writes (store_add_file st fe) = writes st /\ next_id (store_add_file st fe) = next_id st /\
  fw_klass (store_add_file st fe) = fw_klass st.
Proof. unfold store_add_file. destruct (existsb _ _); auto. Qed.

Lemma add_asset_fresh wi i s fe s1 :
  a_prev_entry (heap s i) = None -> add_asset_to_store wi i s = Ok fe s1 ->
  a_prev_entry (heap s1 i) = Some fe /\ fe_klass fe = fw_klass (store s1) /\
  length (writes (store s1)) = S (length (writes (store s))).
Proof.
  intros Hp Ha. pose proof (add_asset_heap wi i s) as Hh. rewrite Ha in Hh.
  split; [apply Hh|].
  revert Ha.
  cbv beta iota delta [add_asset_to_store bind get_block get_store get ret].
  rewrite Hp. cbn -[store_payload].
  destruct (store_payload wi (heap s i) s) as [fe1 s2|e s2] eqn:E; [|intros H; discriminate H].
  destruct (store_payload_ok _ _ _ _ _ E) as [_ [Hk [Hfw Hw]]].
  cbn. intros H; inversion H; subst; cbn. split; congruence.
Qed.

Lemma asset_elem_src tag kw cap v :
  dict_lookup "src" kw = Some v ->
  dict_lookup "src" (elem_attrs (if String.eqb cap EmptyString then Node tag kw None []
                                 else elem_set (Node tag kw None []) "caption" cap)) = Some v.
Proof.
  intros H. destruct (String.eqb cap EmptyString); cbn; [exact H|].
  rewrite dict_lookup_set_ne by discriminate. exact H.
Qed.

(** ** Unsupported payloads *)

(** A payload type the block's writer has no method for: DispatchError,
    which [_add_asset_to_store] turns into the client error. *)
Lemma unsupported_payload_client_error wi i s w d :
  a_prev_entry (heap s i) = None -> a_data (heap s i) = Some d ->
  asset_mapping (a_kind (heap s i)) = Some w -> get_meta (wi w) d = None ->
  visit wi (BAsset i) s =
    Err (DPClientError (py_type d ++ " not supported for XMLBuilder")) s.
Proof.
  intros Hp Hd Hm Hg. rewrite visit_asset_eq.
  cbv beta iota delta [add_asset_to_store bind get_block get_store get ret].
  rewrite Hp. unfold store_payload. rewrite Hd.
  unfold catch_dispatch, get_writer, call_get_meta, bind, raise, ret.
  rewrite Hm, Hg. reflexivity.
Qed.

(** C3 (code bug): an Asset block whose class has no entry in
    [asset_mapping] (here a plain [AssetBlock] carrying a DataFrame) makes
    [get_writer] fail with a dict lookup [KeyError], which the
    [except DispatchError] around it does not catch: no DPClientError. *)
Lemma unregistered_block_keyerror :
  visit example_writers (BAsset 0) (example_state (fun _ => unregistered_asset)) =
  Err (KeyError "AssetBlock") (example_state (fun _ => unregistered_asset)).
Proof. reflexivity. Qed.

(** ** Further properties of the traversal *)

Lemma traverse_cons_ok (f : Block -> M unit) b bs s s' :
  traverse f (b :: bs) s = Ok tt s' ->
  exists s1, f b s = Ok tt s1 /\ traverse f bs s1 = Ok tt s'.
Proof.
  cbn. unfold bind. destruct (f b s) as [[] s1|e s1]; [eauto|discriminate].
Qed.

(** The two ways [_add_asset_to_store] returns: the memo shortcut, or the
    payload branch followed by [b._prev_entry = fe]. *)
Lemma add_asset_cases wi i s fe s1 :
  add_asset_to_store wi i s = Ok fe s1 ->
  (a_prev_entry (heap s i) = Some fe /\ fe_klass fe = fwk s /\
   s1 = mkSt (elements s) (store_add_file (store s) fe) (heap s) (name_ctr s)) \/
  ((forall pe, a_prev_entry (heap s i) = Some pe -> fe_klass pe <> fwk s) /\
   exists s2, store_payload wi (heap s i) s = Ok fe s2 /\
     s1 = mkSt (elements s2) (store s2) (heap_upd (heap s2) i (set_prev_entry (heap s2 i) fe))
               (name_ctr s2)).
Proof.
  intros Ha. unfold fwk.
  destruct (a_prev_entry (heap s i)) as [pe|] eqn:Ep.
  - destruct (Nat.eqb_spec (fe_klass pe) (fw_klass (store s))) as [Hk|Hk].
    + rewrite (add_asset_memo wi i s pe Ep Hk) in Ha. injection Ha as <- <-. left; auto.
    + right. split; [intros pe' H; injection H as <-; exact Hk|].
      revert Ha. cbv beta iota zeta delta [add_asset_to_store bind get_block get_store get ret].
      rewrite Ep, (proj2 (Nat.eqb_neq _ _) Hk).
      destruct (store_payload wi (heap s i) s) as [fe2 s2|e s2]; cbn; [|intros H; discriminate H].
      intros H; injection H as <- <-. eexists; split; reflexivity.
  - right. split; [intros pe' H; discriminate H|].
    revert Ha. cbv beta iota zeta delta [add_asset_to_store bind get_block get_store get ret].
    rewrite Ep.
    destruct (store_payload wi (heap s i) s) as [fe2 s2|e s2]; cbn; [|intros H; discriminate H].
    intros H; injection H as <- <-. eexists; split; reflexivity.
Qed.

Lemma add_asset_ok_fwk wi i s fe s1 :
  add_asset_to_store wi i s = Ok fe s1 ->
  fwk s1 = fwk s /\ fe_klass fe = fwk s /\ a_prev_entry (heap s1 i) = Some fe /\
  (forall j, j <> i -> heap s1 j = heap s j).
Proof.
  intros Ha. destruct (add_asset_cases _ _ _ _ _ Ha) as [[Hp [Hk ->]]|[_ [s2 [E ->]]]].
  - unfold fwk in *; cbn. rewrite (proj2 (proj2 (store_add_file_writes _ _))). auto.
  - destruct (store_payload_ok _ _ _ _ _ E) as [_ [Hk [Hfw _]]].
    pose proof (keeps_ok_heap := proj1 (store_payload_keeps wi (heap s i)) s).
    rewrite E in keeps_ok_heap. cbn in keeps_ok_heap.
    unfold fwk, heap_upd; cbn. rewrite Nat.eqb_refl. repeat split; auto.
    intros j Hj. rewrite (proj2 (Nat.eqb_neq j i) Hj), keeps_ok_heap. reflexivity.
Qed.

Lemma add_asset_memo_ok wi i s fe s1 :
  add_asset_to_store wi i s = Ok fe s1 ->
  memo_ok s1 i /\ forall j, memo_ok s j -> memo_ok s1 j.
Proof.
  intros Ha. destruct (add_asset_ok_fwk _ _ _ _ _ Ha) as [Hfw [Hk [Hp Hh]]].
  unfold fwk in *.
  assert (Hi : memo_ok s1 i) by (exists fe; split; congruence).
  split; [exact Hi|]. intros j [pe [Hpj Hkj]].
  destruct (Nat.eq_dec j i) as [->|Hne]; [exact Hi|].
  exists pe. rewrite Hh by exact Hne. split; congruence.
Qed.

Lemma add_asset_ok_ctr wi i s fe s1 :
  add_asset_to_store wi i s = Ok fe s1 -> name_ctr s1 = name_ctr s.
Proof.
  intros Ha. pose proof (proj2 (add_asset_keeps wi i) s) as H. rewrite Ha in H. exact H.
Qed.

(** ** What a traversal does to the asset objects *)

Lemma same_fields_refl b : same_fields b b.
Proof. repeat split. Qed.

Lemma same_fields_trans b1 b2 b3 : same_fields b1 b2 -> same_fields b2 b3 -> same_fields b1 b3.
Proof. unfold same_fields. intuition congruence. Qed.

Lemma prev_step_refl s s' :
  fwk s' = fwk s -> nid s' = nid s -> heap s' = heap s -> prev_step s s'.
Proof. intros Hf Hn Hh. split; [exact Hf|split; [lia|intros j; left; rewrite Hh; reflexivity]]. Qed.

Lemma prev_step_trans s1 s2 s3 : prev_step s1 s2 -> prev_step s2 s3 -> prev_step s1 s3.
Proof.
  intros [F1 [N1 H1]] [F2 [N2 H2]].
  split; [congruence|split; [lia|]]. intros j.
  destruct (H1 j) as [E1|[S1 [fe1 [P1 [K1 R1]]]]];
    destruct (H2 j) as [E2|[S2 [fe2 [P2 [K2 R2]]]]].
  - left; congruence.
  - right. rewrite E1 in S2. split; [exact S2|]. exists fe2. split; [exact P2|split; [congruence|lia]].
  - right. rewrite E2. split; [exact S1|]. exists fe1. split; [exact P1|split; [exact K1|lia]].
  - right. split; [eapply same_fields_trans; eassumption|].
    exists fe2. split; [exact P2|split; [congruence|lia]].
Qed.

Lemma step_frame_keeps {A} (P : nat -> Prop) (m : M A) :
  keeps (fun s => (heap s, store s)) m -> step_frame P m.
Proof.
  intros Hk s. specialize (Hk s). cbn in Hk. injection Hk as Hh Hs.
  split; [apply prev_step_refl; unfold fwk, nid; congruence|intros j _; rewrite Hh; reflexivity].
Qed.

Lemma step_frame_bind {A B} (P : nat -> Prop) (m : M A) (k : A -> M B) :
  step_frame P m -> (forall a, step_frame P (k a)) -> step_frame P (bind m k).
Proof.
  intros Hm Hk s. unfold bind. destruct (Hm s) as [S1 F1].
  destruct (m s) as [a s1|e s1]; cbn in *; [|auto].
  destruct (Hk a s1) as [S2 F2].
  split; [eapply prev_step_trans; eassumption|intros j Hj; rewrite F2, F1 by exact Hj; reflexivity].
Qed.

Lemma step_frame_weaken {A} (P Q : nat -> Prop) (m : M A) :
  (forall j, P j -> Q j) -> step_frame P m -> step_frame Q m.
Proof. intros HPQ Hm s. destruct (Hm s) as [S F]. split; [exact S|intros j Hj; apply F; auto]. Qed.

Lemma store_payload_mono wi b s :
  fwk (res_state (store_payload wi b s)) = fwk s /\ nid s <= nid (res_state (store_payload wi b s)).
Proof.
  unfold store_payload, fwk, nid.
  destruct (a_data b) as [d|].
  - unfold catch_dispatch, get_writer, call_get_meta, call_write_file, get_file,
      add_file, get_store, set_store, get, modify, bind, raise, ret.
    destruct (asset_mapping (a_kind b)); cbn; [|auto].
    destruct (get_meta (wi w) d); cbn; [|auto].
    destruct (write_file (wi w) d); cbn; [|auto].
    unfold store_add_file, store_write; cbn.
    match goal with |- context [if ?c then _ else _] => destruct c end; cbn; auto.
  - destruct (a_file b); cbn; auto.
Qed.

(** A payload stored by the writer or imported: one fresh entry of the
    store's class, and one event about it. *)
Lemma store_payload_ok_id wi b s fe s1 :
  store_payload wi b s = Ok fe s1 ->
  fe_id fe = nid s /\ nid s1 = S (nid s) /\ fe_klass fe = fwk s /\ fwk s1 = fwk s /\
  heap s1 = heap s /\ exists ev, nwrites s1 = nwrites s ++ [ev] /\ ev_id ev = nid s.
Proof.
  intros E. pose proof (proj1 (store_payload_keeps wi b) s) as Hh. rewrite E in Hh. cbn in Hh.
  revert E. unfold store_payload, fwk, nid, nwrites.
  destruct (a_data b) as [d|].
  - unfold catch_dispatch, get_writer, call_get_meta, call_write_file, get_file,
      add_file, get_store, set_store, get, modify, bind, raise, ret.
    destruct (asset_mapping (a_kind b)); cbn; [|intros H; discriminate H].
    destruct (get_meta (wi w) d); cbn; [|intros H; discriminate H].
    destruct (write_file (wi w) d) as [bytes|]; cbn; [|intros H; discriminate H].
    unfold store_add_file, store_write; cbn.
    match goal with |- context [if ?c then _ else _] => destruct c end;
      cbn; intros H; injection H as <- <-; cbn;
      (split; [reflexivity|split; [reflexivity|split; [reflexivity|split; [reflexivity|]]]]);
      (split; [exact Hh|eexists; split; reflexivity]).
  - destruct (a_file b) as [f|]; cbn; [|intros H; discriminate H].
    intros H; injection H as <- <-; cbn.
    split; [reflexivity|split; [reflexivity|split; [reflexivity|split; [reflexivity|]]]].
    split; [exact Hh|eexists; split; reflexivity].
Qed.

Lemma add_asset_err wi i s e s1 :
  add_asset_to_store wi i s = Err e s1 -> heap s1 = heap s /\ fwk s1 = fwk s /\ nid s <= nid s1.
Proof.
  intros Ha. pose proof (add_asset_heap wi i s) as Hh. rewrite Ha in Hh.
  split; [exact Hh|]. revert Ha.
  cbv beta iota zeta delta [add_asset_to_store bind get_block get_store get ret].
  pose proof (store_payload_mono wi (heap s i) s) as Hm.
  assert (Hrest : (fe <- store_payload wi (heap s i) ;; b' <- get_block i ;;
                   set_block i (set_prev_entry b' fe) ;; ret fe) s = Err e s1 ->
                  fwk s1 = fwk s /\ nid s <= nid s1).
  { unfold bind, get_block, set_block, get, modify, ret.
    destruct (store_payload wi (heap s i) s) as [fe s2|e2 s2]; cbn in *;
      [intros H; discriminate H|intros H; injection H as <- <-; exact Hm]. }
  destruct (a_prev_entry (heap s i)) as [pe|]; [|exact Hrest].
  destruct (Nat.eqb (fe_klass pe) (fw_klass (store s))); [|exact Hrest].
  unfold add_file, get_store, set_store, get, modify, bind, ret. cbn. intros H; discriminate H.
Qed.

Lemma add_asset_step_frame wi i : step_frame (fun j => j = i) (add_asset_to_store wi i).
Proof.
  intros s. destruct (add_asset_to_store wi i s) as [fe s1|e s1] eqn:Ha; cbn.
  - destruct (add_asset_cases _ _ _ _ _ Ha) as [[Hp [Hk ->]]|[_ [s2 [E ->]]]].
    + destruct (store_add_file_writes (store s) fe) as [_ [Hn Hf]].
      split; [apply prev_step_refl; [exact Hf|exact Hn|reflexivity]|intros; reflexivity].
    + destruct (store_payload_ok_id _ _ _ _ _ E) as [Hid [Hn [Hk [Hf [Hh _]]]]].
      split.
      * split; [exact Hf|split; [unfold nid in *; cbn; lia|]].
        intros j. unfold heap_upd; cbn. destruct (Nat.eqb_spec j i) as [->|Hj].
        -- right. rewrite Hh. split; [unfold same_fields; cbn; repeat split|].
           exists fe. cbn. split; [reflexivity|split; [exact Hk|unfold nid in *; cbn; lia]].
        -- left. rewrite Hh. reflexivity.
      * intros j Hj. cbn. unfold heap_upd. rewrite (proj2 (Nat.eqb_neq j i) Hj), Hh. reflexivity.
  - destruct (add_asset_err _ _ _ _ _ Ha) as [Hh [Hf Hn]].
    split; [split; [exact Hf|split; [exact Hn|intros j; left; rewrite Hh; reflexivity]]|].
    intros j _. rewrite Hh. reflexivity.
Qed.

Lemma traverse_step_frame (f : Block -> M unit) bs :
  Forall (fun b => step_frame (fun j => In j (asset_refs b)) (f b)) bs ->
  step_frame (fun j => In j (flat_map asset_refs bs)) (traverse f bs).
Proof.
  induction 1 as [|b bs Hb Hbs IH]; cbn.
  - apply step_frame_keeps, keeps_ret.
  - apply step_frame_bind.
    + eapply step_frame_weaken; [|exact Hb]. intros j Hj; apply in_or_app; auto.
    + intros _. eapply step_frame_weaken; [|exact IH]. intros j Hj; apply in_or_app; auto.
Qed.

Lemma visit_step_frame wi b : step_frame (fun j => In j (asset_refs b)) (visit wi b).
Proof.
  induction b as [t a|t a bs IH|t a c|c m a|i] using block_ind'; cbn [visit asset_refs].
  - apply step_frame_keeps. keeps_tac.
  - apply step_frame_bind; [apply step_frame_keeps; keeps_tac|intros].
    apply step_frame_bind; [apply step_frame_keeps; keeps_tac|intros].
    apply step_frame_bind; [apply traverse_step_frame; exact IH|intros].
    apply step_frame_keeps; keeps_tac.
  - apply step_frame_keeps. keeps_tac.
  - apply step_frame_keeps. unfold visit_interactive. destruct m; keeps_tac.
  - unfold visit_asset. apply step_frame_bind.
    + eapply step_frame_weaken; [|apply add_asset_step_frame]. intros j ->; left; reflexivity.
    + intros. apply step_frame_keeps. keeps_tac.
Qed.

Lemma visit_view_step_frame wi v :
  step_frame (fun j => In j (flat_map asset_refs (v_blocks v))) (visit_view wi v).
Proof.
  unfold visit_view. apply step_frame_bind; [apply step_frame_keeps; keeps_tac|intros a].
  destruct (Nat.eqb _ _); [|apply step_frame_keeps, keeps_raise].
  apply step_frame_bind; [|intros; apply step_frame_keeps; keeps_tac].
  apply traverse_step_frame. apply Forall_forall. intros; apply visit_step_frame.
Qed.

(** C9: a traversal (of any block, or of a root View), whether it returns or
    raises, mutates no asset object but the ones the tree refers to, and
    those only in [_prev_entry]: every other field stays as it was, and a
    changed [_prev_entry] holds an entry of the store's class that was
    allocated during the run (entries are allocated only by a successful
    [_add_asset_to_store] of that very block, which puts what it returns in
    [_prev_entry]; the other blocks are immutable values here).  Every
    successful [_add_asset_to_store], through the memo check, the inline
    data branch or the file import branch, leaves the block's [_prev_entry]
    equal to the entry it returns and every other asset object unchanged; a
    failing one changes no asset object. *)
Theorem traversal_frame (wi : WriterCls -> AssetWriter) (b : Block) (v : View)
    (s : St) (i : nat) :
  let s1 := res_state (visit wi b s) in
  let s2 := res_state (visit_view wi v s) in
  ((forall j, same_fields (heap s j) (heap s1 j)) /\ prev_step s s1 /\
   forall j, ~ In j (asset_refs b) -> heap s1 j = heap s j) /\
  ((forall j, same_fields (heap s j) (heap s2 j)) /\ prev_step s s2 /\
   forall j, ~ In j (flat_map asset_refs (v_blocks v)) -> heap s2 j = heap s j) /\
  match add_asset_to_store wi i s with
  | Ok fe s3 =>
      a_prev_entry (heap s3 i) = Some fe /\ same_fields (heap s i) (heap s3 i) /\
      forall j, j <> i -> heap s3 j = heap s j
  | Err _ s3 => heap s3 = heap s
  end.
Proof.
  intros s1 s2. split; [|split].
  - destruct (visit_step_frame wi b s) as [Hp Hf].
    split; [intros j; apply (visit_frame wi b s j)|split; [exact Hp|exact Hf]].
  - destruct (visit_view_step_frame wi v s) as [Hp Hf].
    split; [intros j; apply (visit_view_frame wi v s j)|split; [exact Hp|exact Hf]].
  - pose proof (add_asset_heap wi i s) as H.
    pose proof (add_asset_step_frame wi i s) as [_ Hf].
    destruct (add_asset_to_store wi i s) as [fe s3|e s3] eqn:Ha; [|exact H].
    split; [apply H|split; [|intros j Hj; exact (Hf j Hj)]].
    exact (add_asset_same_fields _ _ _ _ _ Ha).
Qed.

Ltac leaf_memo_tac :=
  split; [reflexivity|split; [intros ?j ?Hj; exact Hj|intros ?i []]].

Lemma traverse_ok_memo wi bs :
  Forall (fun b => forall s s', visit wi b s = Ok tt s' ->
            fwk s' = fwk s /\ (forall j, memo_ok s j -> memo_ok s' j) /\
            (forall i, In i (asset_refs b) -> memo_ok s' i)) bs ->
  forall s s', traverse (visit wi) bs s = Ok tt s' ->
  fwk s' = fwk s /\ (forall j, memo_ok s j -> memo_ok s' j) /\
  (forall i, In i (flat_map asset_refs bs) -> memo_ok s' i).
Proof.
  induction 1 as [|b bs Hb Hbs IHbs]; intros s0 s1 Et.
  - cbn in Et. injection Et as <-. split; [reflexivity|split; [auto|intros ? []]].
  - destruct (traverse_cons_ok _ _ _ _ _ Et) as [s2 [E1 E2]].
    destruct (Hb _ _ E1) as [F1 [M1 R1]]. destruct (IHbs _ _ E2) as [F2 [M2 R2]].
    split; [congruence|split; [auto|]].
    intros i Hi. cbn in Hi. apply in_app_or in Hi as [Hi|Hi]; auto.
Qed.

(** The memo entries after a returning traversal. *)
Lemma visit_ok_memo wi b :
  forall s s', visit wi b s = Ok tt s' ->
  fwk s' = fwk s /\ (forall j, memo_ok s j -> memo_ok s' j) /\
  (forall i, In i (asset_refs b) -> memo_ok s' i).
Proof.
  induction b as [t a|t a bs IH|t a c|c m a|i] using block_ind'; intros s s' Hv.
  - apply visit_element_ok in Hv as ->. leaf_memo_tac.
  - destruct (container_ok _ _ _ _ _ _ Hv) as [s1 [Et ->]].
    destruct (traverse_ok_memo wi bs IH _ _ Et) as [F [Mm R]].
    split; [exact F|split; [intros j Hj; exact (Mm j Hj)|exact R]].
  - apply visit_text_ok in Hv as ->. leaf_memo_tac.
  - destruct (visit_interactive_ok _ _ _ _ _ _ Hv) as [e [-> _]]; leaf_memo_tac.
  - destruct (visit_asset_ok _ _ _ _ Hv) as [fe [s1 [Ha [_ [_ ->]]]]].
    destruct (add_asset_ok_fwk _ _ _ _ _ Ha) as [Hfw _].
    destruct (add_asset_memo_ok _ _ _ _ _ Ha) as [Hi Hj].
    unfold fwk, memo_ok in *; cbn. split; [exact Hfw|split; [exact Hj|]].
    intros i' [<-|[]]. exact Hi.
Qed.

Lemma traverse_memo_nowrite wi bs :
  Forall (fun b => forall s s', (forall i, In i (asset_refs b) -> memo_ok s i) ->
            visit wi b s = Ok tt s' -> nwrites s' = nwrites s /\ nid s' = nid s) bs ->
  forall s s', (forall i, In i (flat_map asset_refs bs) -> memo_ok s i) ->
  traverse (visit wi) bs s = Ok tt s' -> nwrites s' = nwrites s /\ nid s' = nid s.
Proof.
  induction 1 as [|b bs Hb Hbs IHbs]; intros s0 s1 Hm Et.
  - cbn in Et. injection Et as <-. auto.
  - destruct (traverse_cons_ok _ _ _ _ _ Et) as [s2 [E1 E2]].
    destruct (Hb s0 s2) as [W1 N1]; [intros i Hi; apply Hm; cbn; apply in_or_app; auto|exact E1|].
    destruct (IHbs s2 s1) as [W2 N2]; [|exact E2|split; congruence].
    intros i Hi. apply (proj1 (proj2 (visit_ok_memo wi b s0 s2 E1))).
    apply Hm. cbn. apply in_or_app; auto.
Qed.

(** A returning traversal whose asset objects all hold memo entries of the
    store's class writes nothing and allocates no entry. *)
Lemma visit_memo_nowrite wi b :
  forall s s', (forall i, In i (asset_refs b) -> memo_ok s i) ->
  visit wi b s = Ok tt s' -> nwrites s' = nwrites s /\ nid s' = nid s.
Proof.
  induction b as [t a|t a bs IH|t a c|c m a|i] using block_ind'; intros s s' Hm Hv.
  - apply visit_element_ok in Hv as ->. auto.
  - destruct (container_ok _ _ _ _ _ _ Hv) as [s1 [Et ->]]. exact (traverse_memo_nowrite wi bs IH (mkSt [] (store s) (heap s) (name_ctr s)) _ Hm Et).
  - apply visit_text_ok in Hv as ->. auto.
  - destruct (visit_interactive_ok _ _ _ _ _ _ Hv) as [e [-> _]]; auto.
  - destruct (Hm i (or_introl eq_refl)) as [pe [Hp Hk]].
    destruct (visit_asset_ok _ _ _ _ Hv) as [fe [s1 [Ha [_ [_ ->]]]]].
    rewrite (add_asset_memo wi i s pe Hp Hk) in Ha. injection Ha as <- <-.
    destruct (store_add_file_writes (store s) pe) as [Hw [Hn _]].
    split; [exact Hw|exact Hn].
Qed.

Lemma traverse_ok_ctr wi bs :
  Forall (fun b => forall s s', visit wi b s = Ok tt s' ->
            name_ctr s' = name_ctr s + count_named b) bs ->
  forall s s', traverse (visit wi) bs s = Ok tt s' ->
  name_ctr s' = name_ctr s + list_sum (map count_named bs).
Proof.
  induction 1 as [|b bs Hb Hbs IHbs]; intros s0 s1 Et.
  - cbn in Et. injection Et as <-. cbn. lia.
  - destruct (traverse_cons_ok _ _ _ _ _ Et) as [s2 [E1 E2]].
    rewrite (IHbs _ _ E2), (Hb _ _ E1).
    change (list_sum (map count_named (b :: bs))) with
      (count_named b + list_sum (map count_named bs)). lia.
Qed.

Lemma visit_ok_ctr wi b :
  forall s s', visit wi b s = Ok tt s' -> name_ctr s' = name_ctr s + count_named b.
Proof.
  induction b as [t a|t a bs IH|t a c|c m a|i] using block_ind'; intros s s' Hv.
  - apply visit_element_ok in Hv as ->. cbn. lia.
  - destruct (container_ok _ _ _ _ _ _ Hv) as [s1 [Et ->]]. exact (traverse_ok_ctr wi bs IH (mkSt [] (store s) (heap s) (name_ctr s)) _ Et).
  - apply visit_text_ok in Hv as ->. cbn. lia.
  - destruct (visit_interactive_ok _ _ _ _ _ _ Hv) as [e [-> _]]; cbn; lia.
  - destruct (visit_asset_ok _ _ _ _ Hv) as [fe [s1 [Ha [_ [_ ->]]]]].
    cbn. rewrite (add_asset_ok_ctr _ _ _ _ _ Ha). lia.
Qed.

(** ** Writes and src references of a traversal *)

Lemma events_refl s s' : store s' = store s -> events_from s s'.
Proof.
  intros H. unfold events_from, nid, nwrites. rewrite H.
  split; [lia|exists []; rewrite app_nil_r, Nat.sub_diag; split; reflexivity].
Qed.

Lemma events_trans s1 s2 s3 : events_from s1 s2 -> events_from s2 s3 -> events_from s1 s3.
Proof.
  intros [N1 [l1 [W1 I1]]] [N2 [l2 [W2 I2]]]. split; [lia|].
  exists (l1 ++ l2). split; [rewrite W2, W1, app_assoc; reflexivity|].
  rewrite map_app, I1, I2.
  replace (nid s3 - nid s1) with ((nid s2 - nid s1) + (nid s3 - nid s2)) by lia.
  rewrite seq_app. f_equal. f_equal. lia.
Qed.

Lemma add_asset_events wi i s fe s1 :
  add_asset_to_store wi i s = Ok fe s1 -> events_from s s1.
Proof.
  intros Ha. destruct (add_asset_cases _ _ _ _ _ Ha) as [[_ [_ ->]]|[_ [s2 [E ->]]]].
  - destruct (store_add_file_writes (store s) fe) as [Hw [Hn _]].
    unfold events_from, nid, nwrites; cbn. rewrite Hw, Hn.
    split; [lia|exists []; rewrite app_nil_r, Nat.sub_diag; split; reflexivity].
  - destruct (store_payload_ok_id _ _ _ _ _ E) as [_ [Hn [_ [_ [_ [ev [Hw Hid]]]]]]].
    unfold events_from, nid, nwrites in *; cbn. rewrite Hn.
    split; [lia|exists [ev]; split; [exact Hw|]].
    replace (S (next_id (store s)) - next_id (store s)) with 1 by lia. cbn. rewrite Hid. reflexivity.
Qed.

Lemma traverse_events wi bs :
  Forall (fun b => forall s s', visit wi b s = Ok tt s' -> events_from s s') bs ->
  forall s s', traverse (visit wi) bs s = Ok tt s' -> events_from s s'.
Proof.
  induction 1 as [|b bs Hb Hbs IH]; intros s0 s1 Et.
  - cbn in Et. injection Et as <-. apply events_refl. reflexivity.
  - destruct (traverse_cons_ok _ _ _ _ _ Et) as [s2 [E1 E2]].
    eapply events_trans; [exact (Hb _ _ E1)|exact (IH _ _ E2)].
Qed.

(** A returning visit writes one event per entry it allocates. *)
Lemma visit_events wi b : forall s s', visit wi b s = Ok tt s' -> events_from s s'.
Proof.
  induction b as [t a|t a bs IH|t a c|c m a|i] using block_ind'; intros s s' Hv.
  - apply visit_element_ok in Hv as ->. apply events_refl. reflexivity.
  - destruct (container_ok _ _ _ _ _ _ Hv) as [s1 [Et ->]].
    exact (traverse_events wi bs IH _ _ Et).
  - apply visit_text_ok in Hv as ->. apply events_refl. reflexivity.
  - destruct (visit_interactive_ok _ _ _ _ _ _ Hv) as [e [-> _]]. apply events_refl. reflexivity.
  - destruct (visit_asset_ok _ _ _ _ Hv) as [fe [s1 [Ha [_ [_ ->]]]]].
    pose proof (add_asset_events _ _ _ _ _ Ha) as [N [l [W I]]].
    split; [exact N|exists l; split; assumption].
Qed.

Lemma one_node_split wi b bs s s2 s' es :
  visit wi b s = Ok tt s2 -> traverse (visit wi) bs s2 = Ok tt s' ->
  elements s' = elements s ++ es ->
  exists e1 es', es = e1 :: es' /\ elements s2 = elements s ++ [e1] /\
                 elements s' = elements s2 ++ es' /\
                 map fst (asset_srcs b e1) = asset_refs b.
Proof.
  intros E1 E2 Hes.
  destruct (visit_one_node wi b s s2 E1) as [e1 [He1 [_ Hsr]]].
  assert (Hall : Forall (one_node wi) bs)
    by (apply Forall_forall; intros; apply visit_one_node).
  destruct (traverse_nodes wi bs Hall _ _ E2) as [es' [Hes' _]].
  exists e1, es'. rewrite Hes', He1, <- app_assoc in Hes. apply app_inv_head in Hes.
  cbn in Hes. split; [congruence|split; [exact He1|split; [rewrite Hes', He1; reflexivity|exact Hsr]]].
Qed.

Lemma asset_node_src wi i s s' fe s1 e :
  visit wi (BAsset i) s = Ok tt s' -> add_asset_to_store wi i s = Ok fe s1 ->
  elements s' = elements s ++ [e] ->
  s' = mkSt (elements s') (store s1) (heap s1) (name_ctr s1) /\
  dict_lookup "src" (elem_attrs e) = Some ("ref://" ++ fe_hash fe)%string.
Proof.
  intros Hv Ha He.
  destruct (visit_asset_ok _ _ _ _ Hv) as [fe' [s1' [Ha' [_ [Hs ->]]]]].
  rewrite Ha in Ha'. injection Ha' as <- <-. cbn in He. apply app_inv_head in He.
  injection He as <-. split; [reflexivity|].
  apply asset_elem_src. apply (lookup_src_type fe). exact Hs.
Qed.

Lemma traverse_memo_stable wi i fe bs :
  Forall (fun b => forall s s', memo_at s i fe -> visit wi b s = Ok tt s' ->
     memo_at s' i fe /\ forall e, elements s' = elements s ++ [e] ->
     forall r, In (i, r) (asset_srcs b e) -> r = Some ("ref://" ++ fe_hash fe)%string) bs ->
  forall s s', memo_at s i fe -> traverse (visit wi) bs s = Ok tt s' ->
  memo_at s' i fe /\ forall es, elements s' = elements s ++ es ->
  forall r, In (i, r) (zip_flat asset_srcs bs es) -> r = Some ("ref://" ++ fe_hash fe)%string.
Proof.
  induction 1 as [|b bs Hb Hbs IH]; intros s0 s1 Hm Et.
  - cbn in Et. injection Et as <-. split; [exact Hm|intros es _ r []].
  - destruct (traverse_cons_ok _ _ _ _ _ Et) as [s2 [E1 E2]].
    destruct (Hb _ _ Hm E1) as [Hm2 Hr1]. destruct (IH _ _ Hm2 E2) as [Hm1 Hr2].
    split; [exact Hm1|]. intros es Hes r Hr.
    destruct (one_node_split _ _ _ _ _ _ _ E1 E2 Hes) as [e1 [es' [-> [He1 [Hes' _]]]]].
    cbn in Hr. apply in_app_or in Hr as [Hr|Hr]; [exact (Hr1 _ He1 _ Hr)|exact (Hr2 _ Hes' _ Hr)].
Qed.

(** Once asset object [i] holds a memo entry of the store's class, a
    returning visit keeps it, and every node emitted for [i] refers to it. *)
Lemma visit_memo_stable wi i fe b :
  forall s s', memo_at s i fe -> visit wi b s = Ok tt s' ->
  memo_at s' i fe /\ forall e, elements s' = elements s ++ [e] ->
  forall r, In (i, r) (asset_srcs b e) -> r = Some ("ref://" ++ fe_hash fe)%string.
Proof.
  induction b as [t a|t a bs IH|t a c|c m a|j] using block_ind'; intros s s' Hm Hv.
  - apply visit_element_ok in Hv as ->. split; [exact Hm|intros e _ r []].
  - destruct (container_ok _ _ _ _ _ _ Hv) as [s1 [Et ->]].
    destruct (traverse_memo_stable wi i fe bs IH (mkSt [] (store s) (heap s) (name_ctr s)) _ Hm Et)
      as [Hm1 Hr].
    split; [exact Hm1|]. intros e He r Hin. cbn in He. apply app_inv_head in He.
    injection He as <-. cbn in Hin. exact (Hr (elements s1) eq_refl r Hin).
  - apply visit_text_ok in Hv as ->. split; [exact Hm|intros e _ r []].
  - destruct (visit_interactive_ok _ _ _ _ _ _ Hv) as [e [-> _]]. split; [exact Hm|intros e' _ r []].
  - destruct (visit_asset_ok _ _ _ _ Hv) as [fe' [s1 [Ha [_ [_ Hs']]]]].
    destruct (Nat.eq_dec j i) as [->|Hne].
    + destruct Hm as [Hp Hk].
      pose proof (add_asset_memo wi i s fe Hp Hk) as Ha'. rewrite Ha in Ha'.
      injection Ha' as -> ->. subst s'. unfold memo_at, fwk in *; cbn.
      split; [split; [exact Hp|rewrite (proj2 (proj2 (store_add_file_writes _ _))); exact Hk]|].
      intros e He r Hin. cbn in Hin. destruct Hin as [Hin|[]]. injection Hin as <-.
      exact (proj2 (asset_node_src _ _ _ _ _ _ _ Hv (add_asset_memo wi i s fe Hp Hk) He)).
    + destruct (add_asset_ok_fwk _ _ _ _ _ Ha) as [Hf [_ [_ Hh]]].
      subst s'. destruct Hm as [Hp Hk].
      split; [unfold memo_at, fwk in *; cbn; rewrite Hh by congruence; split; congruence|].
      intros e _ r Hin. cbn in Hin. destruct Hin as [Hin|[]]. injection Hin as Hji. congruence.
Qed.

Lemma asset_srcs_refs b e i r :
  map fst (asset_srcs b e) = asset_refs b -> In (i, r) (asset_srcs b e) -> In i (asset_refs b).
Proof. intros H Hin. rewrite <- H. apply (in_map fst _ _ Hin). Qed.

Lemma traverse_first wi i bs :
  Forall (fun b => forall s s', ~ memo_ok s i -> In i (asset_refs b) -> visit wi b s = Ok tt s' ->
     exists fe, memo_at s' i fe /\ nid s <= fe_id fe < nid s' /\
     forall e, elements s' = elements s ++ [e] ->
     forall r, In (i, r) (asset_srcs b e) -> r = Some ("ref://" ++ fe_hash fe)%string) bs ->
  forall s s', ~ memo_ok s i -> In i (flat_map asset_refs bs) -> traverse (visit wi) bs s = Ok tt s' ->
  exists fe, memo_at s' i fe /\ nid s <= fe_id fe < nid s' /\
  forall es, elements s' = elements s ++ es ->
  forall r, In (i, r) (zip_flat asset_srcs bs es) -> r = Some ("ref://" ++ fe_hash fe)%string.
Proof.
  induction 1 as [|b bs Hb Hbs IH]; intros s0 s1 Hm Hin Et; [destruct Hin|].
  destruct (traverse_cons_ok _ _ _ _ _ Et) as [s2 [E1 E2]].
  assert (FE : Forall (fun b => forall s s', visit wi b s = Ok tt s' -> events_from s s') bs)
    by (apply Forall_forall; intros b' _; apply visit_events).
  destruct (traverse_events wi bs FE _ _ E2) as [N2 _].
  cbn in Hin. destruct (in_dec Nat.eq_dec i (asset_refs b)) as [Hi|Hi].
  - destruct (Hb _ _ Hm Hi E1) as [fe [Hm2 [Hr Hs1]]].
    assert (HS : Forall (fun b => forall s s', memo_at s i fe -> visit wi b s = Ok tt s' ->
              memo_at s' i fe /\ forall e, elements s' = elements s ++ [e] ->
              forall r, In (i, r) (asset_srcs b e) -> r = Some ("ref://" ++ fe_hash fe)%string) bs)
      by (apply Forall_forall; intros b' _; apply visit_memo_stable).
    destruct (traverse_memo_stable wi i fe bs HS _ _ Hm2 E2) as [Hm1 Hs2].
    exists fe. split; [exact Hm1|split; [lia|]].
    intros es Hes r Hr'.
    destruct (one_node_split _ _ _ _ _ _ _ E1 E2 Hes) as [e1 [es' [-> [He1 [Hes' _]]]]].
    cbn in Hr'. apply in_app_or in Hr' as [Hr'|Hr']; [exact (Hs1 _ He1 _ Hr')|exact (Hs2 _ Hes' _ Hr')].
  - destruct (visit_step_frame wi b s0) as [[Hf [N1 _]] Hfr]. rewrite E1 in Hf, N1, Hfr. cbn in Hf, N1, Hfr.
    assert (Hm2 : ~ memo_ok s2 i).
    { intros [pe [Hp Hk]]. apply Hm. exists pe. rewrite Hfr in Hp by exact Hi.
      unfold fwk in Hf. split; congruence. }
    apply in_app_or in Hin as [Hin|Hin]; [contradiction|].
    destruct (IH _ _ Hm2 Hin E2) as [fe [Hm1 [Hr Hs2]]].
    exists fe. split; [exact Hm1|split; [lia|]].
    intros es Hes r Hr'.
    destruct (one_node_split _ _ _ _ _ _ _ E1 E2 Hes) as [e1 [es' [-> [He1 [Hes' Hsr]]]]].
    cbn in Hr'. apply in_app_or in Hr' as [Hr'|Hr']; [|exact (Hs2 _ Hes' _ Hr')].
    exfalso. exact (Hi (asset_srcs_refs _ _ _ _ Hsr Hr')).
Qed.

(** The first visit of an asset object without a usable memo entry writes
    it into a fresh entry and memoises that entry; every node emitted for it
    in the same traversal refers to that entry. *)
Lemma visit_first wi i b :
  forall s s', ~ memo_ok s i -> In i (asset_refs b) -> visit wi b s = Ok tt s' ->
  exists fe, memo_at s' i fe /\ nid s <= fe_id fe < nid s' /\
  forall e, elements s' = elements s ++ [e] ->
  forall r, In (i, r) (asset_srcs b e) -> r = Some ("ref://" ++ fe_hash fe)%string.
Proof.
  induction b as [t a|t a bs IH|t a c|c m a|j] using block_ind'; intros s s' Hm Hin Hv;
    try (destruct Hin; fail).
  - destruct (container_ok _ _ _ _ _ _ Hv) as [s1 [Et ->]].
    destruct (traverse_first wi i bs IH (mkSt [] (store s) (heap s) (name_ctr s)) _ Hm Hin Et)
      as [fe [Hm1 [Hr Hs]]].
    exists fe. split; [exact Hm1|split; [exact Hr|]].
    intros e He r Hr'. cbn in He. apply app_inv_head in He.
    injection He as <-. cbn in Hr'. exact (Hs (elements s1) eq_refl r Hr').
  - destruct Hin as [<-|[]].
    destruct (visit_asset_ok _ _ _ _ Hv) as [fe [s1 [Ha [_ [_ Hs']]]]].
    destruct (add_asset_cases _ _ _ _ _ Ha) as [[Hp [Hk _]]|[_ [s2 [E Hs1]]]].
    + exfalso. apply Hm. exists fe. split; assumption.
    + destruct (store_payload_ok_id _ _ _ _ _ E) as [Hid [Hn [Hk [Hf _]]]].
      exists fe. split; [|split].
      * subst s' s1. unfold memo_at, fwk, heap_upd in *; cbn. rewrite Nat.eqb_refl.
        split; [reflexivity|congruence].
      * subst s' s1. unfold nid in *; cbn. lia.
      * intros e He r Hr'. cbn in Hr'. destruct Hr' as [Hr'|[]]. injection Hr' as <-.
        exact (proj2 (asset_node_src _ _ _ _ _ _ _ Hv Ha He)).
Qed.

Lemma filter_seq_none (l : list WriteEv) a n x :
  map ev_id l = seq a n -> x < a -> length (filter (fun ev => Nat.eqb (ev_id ev) x) l) = 0.
Proof.
  revert a n. induction l as [|ev l IH]; intros a n H Hx; [reflexivity|].
  destruct n; cbn in H; [discriminate|]. injection H as H1 H2.
  cbn. destruct (Nat.eqb_spec (ev_id ev) x); [lia|]. apply (IH (S a) n); [exact H2|lia].
Qed.

Lemma filter_seq_once (l : list WriteEv) a n x :
  map ev_id l = seq a n -> a <= x < a + n ->
  length (filter (fun ev => Nat.eqb (ev_id ev) x) l) = 1.
Proof.
  revert a n. induction l as [|ev l IH]; intros a n H Hx.
  - destruct n; cbn in H; [lia|discriminate].
  - destruct n; cbn in H; [discriminate|]. injection H as H1 H2.
    cbn. destruct (Nat.eqb_spec (ev_id ev) x) as [He|He].
    + cbn. f_equal. apply (filter_seq_none l (S a) n x); [exact H2|lia].
    + apply (IH (S a) n); [exact H2|lia].
Qed.

(** C2: an Asset block whose memoised entry has the store's entry class is
    re-registered with [add_file] and returned, with no entry allocated and
    no bytes written.  So a returning traversal of any tree holding the
    same asset object once or more, which has no usable memo entry when the
    traversal starts, writes its payload to the store exactly once (one
    store event about its entry among the new ones), and every node emitted
    for an occurrence of it carries the same src reference, "ref://" ++ the
    entry's hash. *)
Theorem asset_memo_dedup (wi : WriterCls -> AssetWriter) (i : nat) (s : St) (b : Block) :
  (forall pe, a_prev_entry (heap s i) = Some pe -> fe_klass pe = fw_klass (store s) ->
     add_asset_to_store wi i s =
       Ok pe (mkSt (elements s) (store_add_file (store s) pe) (heap s) (name_ctr s)) /\
     writes (store_add_file (store s) pe) = writes (store s) /\
     next_id (store_add_file (store s) pe) = next_id (store s)) /\
  (forall s', ~ memo_ok s i -> In i (asset_refs b) -> visit wi b s = Ok tt s' ->
     exists e fe l, elements s' = elements s ++ [e] /\ a_prev_entry (heap s' i) = Some fe /\
       nwrites s' = nwrites s ++ l /\
       length (filter (fun ev => Nat.eqb (ev_id ev) (fe_id fe)) l) = 1 /\
       map fst (asset_srcs b e) = asset_refs b /\
       forall r, In (i, r) (asset_srcs b e) -> r = Some ("ref://" ++ fe_hash fe)%string).
Proof.
  split.
  - intros pe Hp Hk. split; [apply add_asset_memo; assumption|].
    pose proof (store_add_file_writes (store s) pe); tauto.
  - intros s' Hm Hin Hv.
    destruct (visit_one_node wi b s s' Hv) as [e [He [_ Hsr]]].
    destruct (visit_first wi i b s s' Hm Hin Hv) as [fe [[Hp _] [Hr Hs]]].
    destruct (visit_events wi b s s' Hv) as [_ [l [Hw Hl]]].
    exists e, fe, l. split; [exact He|split; [exact Hp|split; [exact Hw|split]]].
    + apply (filter_seq_once l (nid s) (nid s' - nid s)); [exact Hl|lia].
    + split; [exact Hsr|exact (Hs e He)].
Qed.

Lemma visit_view_ok wi v s s' :
  visit_view wi v s = Ok tt s' ->
  elements s = [] /\ exists s1, traverse (visit wi) (v_blocks v) s = Ok tt s1 /\
    s' = mkSt [Node "View" (mk_attribs_view (v_fragment v)) None (elements s1)]
              (store s1) (heap s1) (name_ctr s1).
Proof.
  unfold visit_view, bind, get_elements, get, ret. cbn.
  destruct (elements s) as [|e l] eqn:Ee; cbn; [|intros H; discriminate H].
  destruct (traverse (visit wi) (v_blocks v) s) as [[] s1|e s1]; [|intros H; discriminate H].
  unfold lift, mk_attribs_view, conv_bool.
  destruct (v_fragment v); cbn;
    intros H; injection H as <-; split; try reflexivity; eexists; split; reflexivity.
Qed.

Lemma traverse_app_err (f : Block -> M unit) bs1 b bs2 s s1 e s2 :
  traverse f bs1 s = Ok tt s1 -> f b s1 = Err e s2 ->
  traverse f (bs1 ++ b :: bs2) s = Err e s2.
Proof.
  revert s. induction bs1 as [|b1 bs1 IH]; intros s Ht Hb.
  - cbn in Ht. injection Ht as <-. cbn. unfold bind. rewrite Hb. reflexivity.
  - destruct (traverse_cons_ok _ _ _ _ _ Ht) as [s3 [E1 E2]].
    cbn. unfold bind. rewrite E1. apply IH; assumption.
Qed.

Lemma asset_kw_visit wi i s fe s1 e :
  add_asset_to_store wi i s = Ok fe s1 -> asset_kw fe (heap s1 i) = inl e ->
  visit wi (BAsset i) s = Err e s1.
Proof.
  intros Ha Hk. rewrite visit_asset_eq, Ha. revert Hk. unfold asset_kw. cbn zeta.
  destruct (kw_unpack _ _) as [e'|kw]; [congruence|].
  destruct (kw_add _ _ _); congruence.
Qed.

Lemma asset_kw_type_error fe b :
  let U := dict_merge (a_attributes b) (a_file_attribs b) in
  dict_lookup "type" U <> None \/ dict_lookup "src" U <> None ->
  exists msg, asset_kw fe b = inl (TypeError msg).
Proof.
  intros U Hc. unfold asset_kw, kw_unpack, kw_add. fold U.
  destruct (kw_clash [("type", fe_mime fe)] U) eqn:Ec; [eexists; reflexivity|].
  apply kw_clash_single in Ec.
  rewrite dict_lookup_app. cbn [dict_lookup String.eqb Ascii.eqb Bool.eqb].
  destruct (dict_lookup "src" U) eqn:Es; [eexists; reflexivity|].
  destruct Hc; contradiction.
Qed.

(** ** Extra properties *)

(** A child that raises aborts its Container: the error of the first
    failing child is the error of the container visit, its later siblings
    are not visited, and the caller's accumulator is not restored (the
    state is the one the child raised in). *)
Theorem container_error_abort (wi : WriterCls -> AssetWriter) (t : string) (a : Attrs)
    (bs1 : list Block) (b : Block) (bs2 : list Block) (s s1 s2 : St) (e : Exc) :
  traverse (visit wi) bs1 (mkSt [] (store s) (heap s) (name_ctr s)) = Ok tt s1 ->
  visit wi b s1 = Err e s2 ->
  visit wi (BContainer t a (bs1 ++ b :: bs2)) s = Err e s2.
Proof.
  intros Ht Hb. rewrite container_eq.
  rewrite (traverse_app_err (visit wi) bs1 b bs2 _ _ _ _ Ht Hb). reflexivity.
Qed.

(** After a traversal that returns, every asset object the tree refers to
    holds a memoised entry of the store's entry class, and memo entries
    held before are still valid. *)
Theorem visit_memoises (wi : WriterCls -> AssetWriter) (b : Block) (s s' : St) :
  visit wi b s = Ok tt s' ->
  (forall i, In i (asset_refs b) -> memo_ok s' i) /\
  (forall j, memo_ok s j -> memo_ok s' j).
Proof.
  intros Hv. destruct (visit_ok_memo wi b s s' Hv) as [_ [Hj Hi]]. auto.
Qed.

(** A traversal that returns, over a tree whose asset objects all hold
    memo entries of the store's class, writes no bytes into the store and
    allocates no entry. *)
Theorem memoised_visit_no_writes (wi : WriterCls -> AssetWriter) (b : Block) (s s' : St) :
  (forall i, In i (asset_refs b) -> memo_ok s i) ->
  visit wi b s = Ok tt s' ->
  nwrites s' = nwrites s /\ nid s' = nid s.
Proof. apply visit_memo_nowrite. Qed.

(** Building the same View a second time, with the same store and asset
    objects and a fresh accumulator, writes nothing into the store: every
    asset is taken from its memoised entry. *)
Theorem revisit_view_no_writes (wi : WriterCls -> AssetWriter) (v : View) (s s1 s2 : St) :
  visit_view wi v s = Ok tt s1 ->
  visit_view wi v (mkSt [] (store s1) (heap s1) (name_ctr s1)) = Ok tt s2 ->
  nwrites s2 = nwrites s1 /\ nid s2 = nid s1.
Proof.
  intros H1 H2.
  destruct (visit_view_ok _ _ _ _ H1) as [_ [t1 [T1 ->]]].
  destruct (visit_view_ok _ _ _ _ H2) as [_ [t2 [T2 ->]]].
  assert (F1 : Forall (fun b => forall s s', visit wi b s = Ok tt s' ->
            fwk s' = fwk s /\ (forall j, memo_ok s j -> memo_ok s' j) /\
            (forall i, In i (asset_refs b) -> memo_ok s' i)) (v_blocks v))
    by (apply Forall_forall; intros b _; apply visit_ok_memo).
  assert (F2 : Forall (fun b => forall s s', (forall i, In i (asset_refs b) -> memo_ok s i) ->
            visit wi b s = Ok tt s' -> nwrites s' = nwrites s /\ nid s' = nid s) (v_blocks v))
    by (apply Forall_forall; intros b _; apply visit_memo_nowrite).
  destruct (traverse_ok_memo wi _ F1 _ _ T1) as [_ [_ R]].
  exact (traverse_memo_nowrite wi _ F2 (mkSt [] (store t1) (heap t1) (name_ctr t1)) t2 R T2).
Qed.

(** A memoised entry of another entry class than the store's is ignored:
    the payload is written again (one more write), and [_prev_entry] is
    replaced by the new entry, of the store's class. *)
Theorem class_mismatch_rewrites (wi : WriterCls -> AssetWriter) (i : nat) (s : St)
    (pe fe : FileEntry) (s1 : St) :
  a_prev_entry (heap s i) = Some pe -> fe_klass pe <> fwk s ->
  add_asset_to_store wi i s = Ok fe s1 ->
  length (nwrites s1) = S (length (nwrites s)) /\ a_prev_entry (heap s1 i) = Some fe /\
  fe_klass fe = fwk s /\ fe <> pe.
Proof.
  intros Hp Hk Ha.
  destruct (add_asset_cases _ _ _ _ _ Ha) as [[Hp' [Hk' _]]|[_ [s2 [E ->]]]].
  - rewrite Hp in Hp'. injection Hp' as ->. contradiction.
  - destruct (store_payload_ok _ _ _ _ _ E) as [_ [Hk2 [_ Hw]]].
    unfold nwrites, fwk, heap_upd; cbn. rewrite Nat.eqb_refl.
    split; [exact Hw|split; [reflexivity|split; [exact Hk2|]]].
    intros ->. contradiction.
Qed.


(** A keyword clash in an Asset block's node is raised after its payload
    was written and memoised: the TypeError leaves one more write in the
    store and the entry in [_prev_entry]; visiting the block again raises
    the same TypeError without writing. *)
Theorem clash_after_write (wi : WriterCls -> AssetWriter) (i : nat) (s : St)
    (fe : FileEntry) (s1 : St) :
  a_prev_entry (heap s i) = None -> add_asset_to_store wi i s = Ok fe s1 ->
  let U := dict_merge (a_attributes (heap s i)) (a_file_attribs (heap s i)) in
  dict_lookup "type" U <> None \/ dict_lookup "src" U <> None ->
  exists msg, visit wi (BAsset i) s = Err (TypeError msg) s1 /\
    length (nwrites s1) = S (length (nwrites s)) /\ memo_ok s1 i /\
    exists s1', visit wi (BAsset i) s1 = Err (TypeError msg) s1' /\ nwrites s1' = nwrites s1.
Proof.
  intros Hp Ha U Hc.
  destruct (add_asset_fresh _ _ _ _ _ Hp Ha) as [Hp1 [Hk1 Hw]].
  pose proof (add_asset_same_fields _ _ _ _ _ Ha) as [_ [_ [Hat [Hfa _]]]].
  destruct (asset_kw_type_error fe (heap s1 i)) as [msg Hm].
  { cbn zeta. rewrite Hat, Hfa. exact Hc. }
  exists msg. rewrite (asset_kw_visit wi i s fe s1 _ Ha Hm).
  split; [reflexivity|]. split; [exact Hw|]. split; [exists fe; split; assumption|].
  rewrite (asset_kw_visit wi i s1 fe _ _ (add_asset_memo wi i s1 fe Hp1 Hk1) Hm).
  eexists; split; [reflexivity|]. exact (proj1 (store_add_file_writes _ _)).
Qed.

(** Each Interactive block placed SELF, BELOW or SIDE draws exactly one
    name and a TOP one none, so a returning visit advances the name counter
    by [count_named]; and the name drawn depends injectively on the
    counter, so names drawn by different calls differ. *)
Theorem interactive_names (wi : WriterCls -> AssetWriter) (b : Block) (s s' : St) :
  visit wi b s = Ok tt s' ->
  name_ctr s' = name_ctr s + count_named b /\
  (forall t u, fresh_name t = fresh_name u -> name_ctr t = name_ctr u).
Proof.
  intros Hv. split; [exact (visit_ok_ctr wi b s s' Hv)|].
  intros t u H. unfold fresh_name in H. cbn in H. injection H as H.
  rewrite <- (HexString.to_nat_of_nat (name_ctr t)), H. apply HexString.to_nat_of_nat.
Qed.

(** Inline data takes precedence over a file: a fresh block with data has
    its writer's bytes written into a new entry (never imported), and only a
    block without data but with a file is imported. *)
Theorem payload_branch_order (wi : WriterCls -> AssetWriter) (i : nat) (s : St)
    (fe : FileEntry) (s1 : St) :
  a_prev_entry (heap s i) = None -> add_asset_to_store wi i s = Ok fe s1 ->
  match a_data (heap s i) with
  | Some d => exists w bytes, asset_mapping (a_kind (heap s i)) = Some w /\
      write_file (wi w) d = Some bytes /\ nwrites s1 = nwrites s ++ [Wrote (fe_id fe) bytes]
  | None => exists f, a_file (heap s i) = Some f /\
      nwrites s1 = nwrites s ++ [Imported (fe_id fe) f]
  end.
Proof.
  intros Hp Ha.
  destruct (add_asset_cases _ _ _ _ _ Ha) as [[Hp' _]|[_ [s2 [E ->]]]]; [congruence|].
  unfold nwrites; cbn. revert E. unfold store_payload.
  destruct (a_data (heap s i)) as [d|].
  - unfold catch_dispatch, get_writer, call_get_meta, call_write_file, get_file,
      add_file, get_store, set_store, get, modify, bind, raise, ret.
    destruct (asset_mapping (a_kind (heap s i))) as [w|]; cbn; [|intros H; discriminate H].
    destruct (get_meta (wi w) d); cbn; [|intros H; discriminate H].
    destruct (write_file (wi w) d) as [bytes|] eqn:Ew; cbn; [|intros H; discriminate H].
    unfold store_add_file, store_write; cbn.
    match goal with |- context [if ?c then _ else _] => destruct c end;
      cbn; intros H; injection H as <- <-; cbn;
      exists w, bytes; (split; [reflexivity|split; [exact Ew|reflexivity]]).
  - destruct (a_file (heap s i)) as [f|]; cbn; [|intros H; discriminate H].
    intros H; injection H as <- <-; cbn. exists f. split; reflexivity.
Qed.

(** * Witnesses and counterexamples *)

Lemma no_asset_to_add_witness :
  heap_wf (heap (example_state (fun _ => empty_asset))) /\
  a_data empty_asset = None /\ a_file empty_asset = None /\
  visit example_writers (BAsset 0) (example_state (fun _ => empty_asset)) =
    Err (DPClientError "No asset to add") (example_state (fun _ => empty_asset)).
Proof.
  assert (Hwf : heap_wf (heap (example_state (fun _ => empty_asset))))
    by (intros j Hj; exfalso; apply Hj; reflexivity).
  split; [exact Hwf|split; [reflexivity|split; [reflexivity|]]].
  exact (proj1 (no_asset_to_add example_writers 0 _ Hwf eq_refl eq_refl)).
Defined.

Lemma asset_node_witness :
  let s := example_state (fun _ => example_plot) in
  let s' := res_state (visit example_writers (BAsset 0) s) in
  visit example_writers (BAsset 0) s = Ok tt s' /\
  NoDup (map fst (a_file_attribs example_plot)) /\
  exists fe s1 e, add_asset_to_store example_writers 0 s = Ok fe s1 /\
    dict_lookup "src" (elem_attrs e) = Some ("ref://" ++ fe_hash fe)%string /\
    dict_lookup "caption" (elem_attrs e) = Some "A plot".
Proof.
  intros s s'.
  assert (Hv : visit example_writers (BAsset 0) s = Ok tt s') by reflexivity.
  assert (Hnd : NoDup (map fst (a_file_attribs (heap s 0)))) by constructor.
  split; [exact Hv|split; [exact Hnd|]].
  destruct (asset_node example_writers 0 s s' Hv Hnd)
    as (fe & s1 & e & Ha & _ & _ & _ & Hsrc & _ & Hcap & _).
  exists fe, s1, e. split; [exact Ha|split; [exact Hsrc|]].
  apply Hcap. discriminate.
Defined.

Lemma view_document_witness :
  elements (example_state (fun _ => example_plot)) = [] /\
  exists s', visit_view example_writers example_view (example_state (fun _ => example_plot)) = Ok tt s' /\
             map serialize (elements s') = [example_xml].
Proof.
  split; [reflexivity|].
  exact (proj2 (view_document example_writers example_view (example_state (fun _ => example_plot)) eq_refl)).
Defined.

Lemma text_cdata_raw_witness :
  xml_compatible "a<b&c" = true /\ has_cdata_end "a<b&c" = false /\
  xml_name_ok "Text" = true /\ kwargs_ok [] = true /\
  exists s', visit example_writers (BText "Text" [] "a<b&c") (example_state (fun _ => example_plot)) = Ok tt s' /\
             serialize (Node "Text" [] (Some "a<b&c") []) = "<Text><![CDATA[a<b&c]]></Text>".
Proof.
  split; [reflexivity|split; [reflexivity|split; [reflexivity|split; [reflexivity|]]]].
  destruct (proj1 (text_cdata_raw example_writers "Text" [] "a<b&c" (example_state (fun _ => example_plot)))
              eq_refl eq_refl eq_refl eq_refl) as (s' & Hv & _ & Hser).
  exists s'. split; [exact Hv|]. rewrite Hser. reflexivity.
Defined.

Lemma interactive_desugar_witness :
  let s := example_state (fun _ => example_plot) in
  let a := [("label", "x")] in
  kwargs_ok a = true /\
  emits_named example_writers (BInteractive example_controls SELF a) s
    (Node "Interactive" (dict_set (dict_set a "target" (fresh_name s)) "name" (fresh_name s))
       None [example_controls]).
Proof.
  intros s a.
  assert (Hk : kwargs_ok a = true) by reflexivity.
  split; [exact Hk|].
  destruct (interactive_desugar example_writers example_controls a s) as [Hok [Hself _]].
  apply Hself. exact (proj1 (Hok Hk)).
Defined.

Lemma asset_memo_dedup_witness :
  let b := BContainer "Group" [] [BAsset 0; BContainer "Group" [] [BText "Text" [] "hi"; BAsset 0]] in
  let s := example_state (fun _ => example_plot) in
  let s' := res_state (visit example_writers b s) in
  ~ memo_ok s 0 /\ In 0 (asset_refs b) /\ asset_refs b = [0; 0] /\
  visit example_writers b s = Ok tt s' /\
  exists e fe l, elements s' = elements s ++ [e] /\ a_prev_entry (heap s' 0) = Some fe /\
    nwrites s' = nwrites s ++ l /\
    length (filter (fun ev => Nat.eqb (ev_id ev) (fe_id fe)) l) = 1 /\
    map fst (asset_srcs b e) = asset_refs b /\
    forall r, In (0, r) (asset_srcs b e) -> r = Some ("ref://" ++ fe_hash fe)%string.
Proof.
  intros b s s'.
  assert (Hm : ~ memo_ok s 0) by (intros [pe [Hp _]]; cbn in Hp; discriminate Hp).
  assert (Hin : In 0 (asset_refs b)) by (cbn; left; reflexivity).
  assert (Hv : visit example_writers b s = Ok tt s') by reflexivity.
  split; [exact Hm|split; [exact Hin|split; [reflexivity|split; [exact Hv|]]]].
  exact (proj2 (asset_memo_dedup example_writers 0 s b) s' Hm Hin Hv).
Defined.

Lemma asset_kw_clash_witness :
  let s := example_state (fun _ => clashing_plot) in
  add_asset_to_store example_writers 0 s =
    Ok plot_entry (res_state (add_asset_to_store example_writers 0 s)) /\
  exists msg, visit example_writers (BAsset 0) s =
              Err (TypeError msg) (res_state (add_asset_to_store example_writers 0 s)).
Proof.
  intros s.
  assert (Ha : add_asset_to_store example_writers 0 s =
               Ok plot_entry (res_state (add_asset_to_store example_writers 0 s)))
    by reflexivity.
  split; [exact Ha|].
  apply (proj2 (asset_kw_clash example_writers 0 s _ _ Ha)).
  right. cbn. discriminate.
Defined.

(** C6 counterexample: a Group holding an Interactive block placed BELOW
    yields Group[Group[Interactive[Controls], Group[Empty]]], whose shape is
    not the tree's Group[leaf]. *)
Lemma container_mirror_counterexample :
  exists s' e,
    visit example_writers group_with_interactive (example_state (fun _ => example_plot)) = Ok tt s' /\
    elements s' = [e] /\ eshape e <> bshape group_with_interactive.
Proof.
  eexists _, _. split.
  - unfold group_with_interactive, example_state, example_controls. cbn. reflexivity.
  - split; [reflexivity|]. cbn. congruence.
Qed.

(** C1 counterexample: an Interactive block placed TOP whose attribute
    value holds a control character (U+0001) emits nothing: lxml rejects
    the value and construction raises ValueError. *)
Lemma interactive_desugar_counterexample :
  visit example_writers
    (BInteractive example_controls TOP [("label", ("a" ++ String (ascii_of_nat 1) "b")%string)])
    (example_state (fun _ => example_plot)) =
  Err (ValueError "All strings must be XML compatible: Unicode or ASCII, no NULL bytes or control characters")
      (example_state (fun _ => example_plot)).
Proof. reflexivity. Qed.

(** C8 counterexample: Text content containing "]]>" makes etree.CDATA
    raise ValueError; no node is emitted. *)
Lemma text_cdata_counterexample :
  visit example_writers (BText "Text" [] "a]]>b") (example_state (fun _ => example_plot)) =
  Err (ValueError "']]>' not allowed inside CDATA") (example_state (fun _ => example_plot)).
Proof. reflexivity. Qed.

Lemma unsupported_payload_client_error_witness :
  let b := mkAssetBlock KPlot "Plot" [] [] (Some (mkPayload "str" "x")) None EmptyString None in
  visit example_writers (BAsset 0) (example_state (fun _ => b)) =
    Err (DPClientError ("str" ++ " not supported for XMLBuilder")%string)
        (example_state (fun _ => b)).
Proof.
  intros b.
  apply (unsupported_payload_client_error example_writers 0 _ PlotWriter (mkPayload "str" "x"));
    reflexivity.
Defined.

Lemma container_error_abort_witness :
  let s := example_state (fun _ => example_plot) in
  let s1 := res_state (traverse (visit example_writers) [BElement "A" []]
                         (mkSt [] (store s) (heap s) (name_ctr s))) in
  visit example_writers
    (BContainer "Group" [] ([BElement "A" []] ++ BText "Text" [] "a]]>b" :: [BAsset 0])) s =
  Err (ValueError "']]>' not allowed inside CDATA") s1.
Proof.
  intros s s1.
  apply (container_error_abort example_writers "Group" [] [BElement "A" []]
           (BText "Text" [] "a]]>b") [BAsset 0] s s1 s1); reflexivity.
Defined.

Lemma visit_memoises_witness :
  let s := example_state (fun _ => example_plot) in
  let b := BContainer "Group" [] [BAsset 0; BAsset 0] in
  visit example_writers b s = Ok tt (res_state (visit example_writers b s)) /\
  memo_ok (res_state (visit example_writers b s)) 0.
Proof.
  intros s b.
  assert (Hv : visit example_writers b s = Ok tt (res_state (visit example_writers b s)))
    by reflexivity.
  split; [exact Hv|].
  apply (proj1 (visit_memoises example_writers b s _ Hv)). left; reflexivity.
Defined.

Lemma memoised_visit_no_writes_witness :
  let s := example_state (fun _ => set_prev_entry example_plot plot_entry) in
  let b := BContainer "Group" [] [BAsset 0; BAsset 0] in
  visit example_writers b s = Ok tt (res_state (visit example_writers b s)) /\
  nwrites (res_state (visit example_writers b s)) = nwrites s /\
  nid (res_state (visit example_writers b s)) = nid s.
Proof.
  intros s b.
  assert (Hv : visit example_writers b s = Ok tt (res_state (visit example_writers b s)))
    by reflexivity.
  split; [exact Hv|].
  apply (memoised_visit_no_writes example_writers b s _); [|exact Hv].
  intros i Hi. cbn in Hi. destruct Hi as [<-|[<-|[]]]; exists plot_entry; split; reflexivity.
Defined.

Lemma revisit_view_no_writes_witness :
  let v := mkView false [BAsset 0; BText "Text" [] "hi"] in
  let s := example_state (fun _ => example_plot) in
  let s1 := res_state (visit_view example_writers v s) in
  let s2 := res_state (visit_view example_writers v (mkSt [] (store s1) (heap s1) (name_ctr s1))) in
  visit_view example_writers v s = Ok tt s1 /\
  visit_view example_writers v (mkSt [] (store s1) (heap s1) (name_ctr s1)) = Ok tt s2 /\
  length (nwrites s1) = 1 /\ nwrites s2 = nwrites s1 /\ nid s2 = nid s1.
Proof.
  intros v s s1 s2.
  assert (H1 : visit_view example_writers v s = Ok tt s1) by reflexivity.
  assert (H2 : visit_view example_writers v (mkSt [] (store s1) (heap s1) (name_ctr s1)) = Ok tt s2)
    by reflexivity.
  split; [exact H1|split; [exact H2|split; [reflexivity|]]].
  exact (revisit_view_no_writes example_writers v s s1 s2 H1 H2).
Defined.

Lemma class_mismatch_rewrites_witness :
  let pe := mkFileEntry 7 0 "0x0" "application/vnd.vegalite.v5+json" ".vl.json" in
  let s := example_state (fun _ => set_prev_entry example_plot pe) in
  add_asset_to_store example_writers 0 s =
    Ok plot_entry (res_state (add_asset_to_store example_writers 0 s)) /\
  length (nwrites (res_state (add_asset_to_store example_writers 0 s))) = 1 /\
  plot_entry <> pe.
Proof.
  intros pe s.
  assert (Ha : add_asset_to_store example_writers 0 s =
               Ok plot_entry (res_state (add_asset_to_store example_writers 0 s)))
    by reflexivity.
  destruct (class_mismatch_rewrites example_writers 0 s pe plot_entry _ eq_refl
              ltac:(cbn; lia) Ha) as (Hw & _ & _ & Hne).
  split; [exact Ha|split; [exact Hw|exact Hne]].
Defined.

Lemma clash_after_write_witness :
  let s := example_state (fun _ => clashing_plot) in
  let s1 := res_state (add_asset_to_store example_writers 0 s) in
  add_asset_to_store example_writers 0 s = Ok plot_entry s1 /\
  exists msg, visit example_writers (BAsset 0) s = Err (TypeError msg) s1 /\
    length (nwrites s1) = 1 /\
    exists s1', visit example_writers (BAsset 0) s1 = Err (TypeError msg) s1' /\
                nwrites s1' = nwrites s1.
Proof.
  intros s s1.
  assert (Ha : add_asset_to_store example_writers 0 s = Ok plot_entry s1) by reflexivity.
  split; [exact Ha|].
  destruct (clash_after_write example_writers 0 s plot_entry s1 eq_refl Ha
              ltac:(right; cbn; discriminate)) as (msg & Hv & Hw & _ & Hrest).
  exists msg. split; [exact Hv|split; [exact Hw|exact Hrest]].
Defined.

Lemma interactive_names_witness :
  let b := BContainer "Group" [] [BInteractive example_controls SELF [];
                                  BInteractive example_controls TOP [];
                                  BInteractive example_controls SIDE []] in
  let s := example_state (fun _ => example_plot) in
  visit example_writers b s = Ok tt (res_state (visit example_writers b s)) /\
  name_ctr (res_state (visit example_writers b s)) = 2.
Proof.
  intros b s.
  assert (Hv : visit example_writers b s = Ok tt (res_state (visit example_writers b s)))
    by reflexivity.
  split; [exact Hv|].
  rewrite (proj1 (interactive_names example_writers b s _ Hv)). reflexivity.
Defined.

Lemma payload_branch_order_witness :
  let blk := mkAssetBlock KPlot "Plot" [] [] (Some (mkPayload "Figure" "{}")) (Some "plot.json")
               EmptyString None in
  let s := example_state (fun _ => blk) in
  add_asset_to_store example_writers 0 s =
    Ok plot_entry (res_state (add_asset_to_store example_writers 0 s)) /\
  exists w bytes, asset_mapping KPlot = Some w /\ write_file (example_writers w) (mkPayload "Figure" "{}") = Some bytes /\
    nwrites (res_state (add_asset_to_store example_writers 0 s)) = nwrites s ++ [Wrote 0 bytes].
Proof.
  intros blk s.
  assert (Ha : add_asset_to_store example_writers 0 s =
               Ok plot_entry (res_state (add_asset_to_store example_writers 0 s)))
    by reflexivity.
  split; [exact Ha|].
  exact (payload_branch_order example_writers 0 s plot_entry _ eq_refl Ha).
Defined.

